(** * A model of [server/async_python_subprocess.py]

    The class [AsyncPythonSubprocess] launches a child interpreter, relays
    its standard output and standard error to a web socket as events,
    recognises the length-prefixed prompt framing on standard output and
    watches for the end of the child or of the client.

    The development has three layers:
    - the byte and text primitives the source calls ([bytes.decode], [int],
      [StreamReader.readline], [StreamReader.read], [Popen.poll],
      [Popen.kill]), as executable functions;
    - the methods of the class, one definition per method, with the
      coroutines cut at their [await] points;
    - the cooperative scheduling of the three tasks, as a function [exec]
      from a label and a state to a state, and the properties of its runs. *)

From Stdlib.Strings Require Import String Ascii Byte.
From Stdlib Require Import List ZArith NArith Bool Lia.
From Stdlib Require Import Permutation.
Import ListNotations.

Set Implicit Arguments.

Local Open Scope N_scope.

(** ** Bytes and text *)

(** [bytes] objects. *)
Definition bytes := list byte.

(** A [str] is a sequence of Unicode code points. *)
Definition codepoint := N.
Definition str := list codepoint.

Definition bytes_of (s : string) : bytes := list_byte_of_string s.

(** The [str] whose characters are the (ASCII) characters of a literal. *)
Definition text (s : string) : str := map Byte.to_N (list_byte_of_string s).

Definition bytes_eqb (a b : bytes) : bool :=
  if list_eq_dec Byte.byte_eq_dec a b then true else false.

Definition in_range (lo hi : N) (b : byte) : bool :=
  (lo <=? Byte.to_N b) && (Byte.to_N b <=? hi).

(** The payload bits of a continuation byte. *)
Definition low6 (b : byte) : N := Byte.to_N b - 128.

(** The exceptions that travel through the modelled code. [ValueError] is
    what [int] and [StreamReader.readline] raise, [UnicodeDecodeError] what
    [bytes.decode] raises, [ProcessNotStarted] stands for
    [Exception("Process not started...")], [OSError] for a failed spawn,
    [AttributeError] for the use of an attribute that is unset or [None], and
    [TransportError] for whatever the web socket raises from [send_text]. *)
Inductive exn : Type :=
| ValueError
| UnicodeDecodeError
| ProcessNotStarted
| OSError
| AttributeError
| TransportError (code : N).

(** [bytes.decode()]: strict UTF-8.  Overlong forms, surrogates and code
    points above U+10FFFF are rejected, as are truncated sequences. *)
Fixpoint decode (bs : bytes) : option str :=
  match bs with
  | [] => Some []
  | b0 :: t0 =>
    let n0 := Byte.to_N b0 in
    if n0 <? 128 then option_map (cons n0) (decode t0)
    else if n0 <? 194 then None
    else if n0 <? 224 then
      match t0 with
      | b1 :: t1 =>
        if in_range 128 191 b1
        then option_map (cons ((n0 - 192) * 64 + low6 b1)) (decode t1)
        else None
      | _ => None
      end
    else if n0 <? 240 then
      match t0 with
      | b1 :: b2 :: t2 =>
        if in_range (if n0 =? 224 then 160 else 128)
                    (if n0 =? 237 then 159 else 191) b1
           && in_range 128 191 b2
        then option_map
               (cons ((n0 - 224) * 4096 + low6 b1 * 64 + low6 b2))
               (decode t2)
        else None
      | _ => None
      end
    else if n0 <? 245 then
      match t0 with
      | b1 :: b2 :: b3 :: t3 =>
        if in_range (if n0 =? 240 then 144 else 128)
                    (if n0 =? 244 then 143 else 191) b1
           && in_range 128 191 b2 && in_range 128 191 b3
        then option_map
               (cons ((n0 - 240) * 262144 + low6 b1 * 4096
                      + low6 b2 * 64 + low6 b3))
               (decode t3)
        else None
      | _ => None
      end
    else None
  end.

(** ** [int(str)] in base ten

    The interpreter first maps the string to ASCII: characters below 127
    are kept, other white space becomes a blank, other decimal digits become
    the ASCII digit of the same value, and any other character makes the
    literal invalid.  The ASCII text is then: blanks, an optional sign, digits
    with single underscores between them, blanks. *)

(** White space outside ASCII ([str.isspace]). *)
Definition Py_UNICODE_ISSPACE (c : codepoint) : bool :=
  existsb (N.eqb c)
    [133; 160; 5760; 8192; 8193; 8194; 8195; 8196; 8197; 8198; 8199; 8200;
     8201; 8202; 8232; 8233; 8239; 8287; 12288].

(** The code points of the digit zero of every script of the Unicode
    database (general category Nd, version 14.0, the one of CPython 3.11);
    the nine code points after each are the digits one to nine. *)
Definition decimal_zeros : list codepoint :=
  [1632; 1776; 1984; 2406; 2534; 2662; 2790; 2918; 3046; 3174; 3302; 3430;
   3558; 3664; 3792; 3872; 4160; 4240; 6112; 6160; 6470; 6608; 6784; 6800;
   6992; 7088; 7232; 7248; 42528; 43216; 43264; 43472; 43504; 43600; 44016;
   65296; 66720; 68912; 69734; 69872; 69942; 70096; 70384; 70736; 70864;
   71248; 71360; 71472; 71904; 72016; 72784; 73040; 73120; 92768; 92864;
   93008; 120782; 120792; 120802; 120812; 120822; 123200; 123632; 125264;
   130032].

Definition Py_UNICODE_TODECIMAL (c : codepoint) : option N :=
  match find (fun z => (z <=? c) && (c <? z + 10)) decimal_zeros with
  | Some z => Some (c - z)
  | None => None
  end.

Definition ascii_of_codepoint (c : codepoint) : option N :=
  if c <? 127 then Some c
  else if Py_UNICODE_ISSPACE c then Some 32
  else option_map (N.add 48) (Py_UNICODE_TODECIMAL c).

Fixpoint transform_decimal_and_space_to_ascii (s : str) : option (list N) :=
  match s with
  | [] => Some []
  | c :: s' =>
    match ascii_of_codepoint c, transform_decimal_and_space_to_ascii s' with
    | Some a, Some r => Some (a :: r)
    | _, _ => None
    end
  end.

(** The C locale's [isspace]: tab, line feed, vertical tab, form feed,
    carriage return and blank. *)
Definition Py_ISSPACE (c : N) : bool := ((9 <=? c) && (c <=? 13)) || (c =? 32).

Definition is_digit (c : N) : bool := (48 <=? c) && (c <=? 57).
Definition is_underscore (c : N) : bool := c =? 95.

Fixpoint skip_space (s : list N) : list N :=
  match s with
  | c :: s' => if Py_ISSPACE c then skip_space s' else s
  | [] => []
  end.

(** The run of digits and underscores at the head of [s], and what follows. *)
Fixpoint scan_numeral (s : list N) : list N * list N :=
  match s with
  | c :: s' =>
    if is_digit c || is_underscore c
    then let (run, rest) := scan_numeral s' in (c :: run, rest)
    else ([], s)
  | [] => ([], [])
  end.

(** No underscore at either end, and no two in a row. *)
Fixpoint underscores_ok (prev_underscore : bool) (run : list N) : bool :=
  match run with
  | [] => negb prev_underscore
  | c :: run' =>
    if is_underscore c
    then negb prev_underscore && underscores_ok true run'
    else underscores_ok false run'
  end.

Definition digits_of (run : list N) : list N := filter is_digit run.

Definition decimal_value (digits : list N) : Z :=
  fold_left (fun acc d => (acc * 10 + Z.of_N (d - 48))%Z) digits 0%Z.

(** [sys.get_int_max_str_digits()] as the interpreter starts. *)
Definition int_max_str_digits : nat := 4300.

Definition PyLong_FromString (s : list N) : option Z :=
  let s1 := skip_space s in
  let '(negative, s2) :=
    match s1 with
    | 43 :: r => (false, r)
    | 45 :: r => (true, r)
    | _ => (false, s1)
    end in
  let (run, rest) := scan_numeral s2 in
  match run with
  | [] => None
  | c :: _ =>
    if negb (is_underscore c) && underscores_ok false run
       && (length (digits_of run) <=? int_max_str_digits)%nat
    then
      match skip_space rest with
      | [] => let v := decimal_value (digits_of run) in
              Some (if negative then (- v)%Z else v)
      | _ :: _ => None
      end
    else None
  end.

(** [int(s)] for a [str]; [None] is [ValueError]. *)
Definition int (s : str) : option Z :=
  match transform_decimal_and_space_to_ascii s with
  | Some a => PyLong_FromString a
  | None => None
  end.

Local Close Scope N_scope.

(** ** [asyncio.StreamReader]

    The reader holds the bytes the event loop has fed it and not yet handed
    out, and whether end-of-file has been fed. *)
Record StreamReader : Type := mkReader { _buffer : bytes; _eof : bool }.

(** [asyncio.streams._DEFAULT_LIMIT], [2 ** 16]. *)
Definition _limit : N := 65536.

(** What a coroutine that is resumed once can report: it still waits, it
    raised, or it returned. *)
Inductive outcome (A : Type) : Type :=
| Pending
| Raise (e : exn)
| Return (a : A).
Arguments Pending {A}.
Arguments Raise {A} e.
Arguments Return {A} a.

Definition newline : byte := x0a.

(** The buffer cut after its first newline: the line with its newline, and
    the rest. *)
Fixpoint find_newline (b : bytes) : option (bytes * bytes) :=
  match b with
  | [] => None
  | c :: b' =>
    if Byte.eqb c newline then Some ([c], b')
    else match find_newline b' with
         | Some (line, rest) => Some (c :: line, rest)
         | None => None
         end
  end.

Definition size (b : bytes) : N := N.of_nat (List.length b).

(** [await reader.readline()].  A line longer than the limit (its newline
    not counted) raises [ValueError] and is dropped; without a newline the
    reader waits, unless end-of-file was fed, when it returns what is left
    (possibly nothing). *)
Definition readline (r : StreamReader) : outcome bytes * StreamReader :=
  match find_newline (_buffer r) with
  | Some (line, rest) =>
    if (_limit <? size line - 1)%N
    then (Raise ValueError, mkReader rest (_eof r))
    else (Return line, mkReader rest (_eof r))
  | None =>
    if (_limit <? size (_buffer r))%N
    then (Raise ValueError, mkReader [] (_eof r))
    else if _eof r then (Return (_buffer r), mkReader [] true)
    else (Pending, r)
  end.

(** [b[:n]] and [b[n:]] for [0 <= n]. *)
Fixpoint slice_to (n : Z) (b : bytes) : bytes :=
  match b with
  | [] => []
  | c :: b' => if (n <=? 0)%Z then [] else c :: slice_to (n - 1) b'
  end.

Fixpoint slice_from (n : Z) (b : bytes) : bytes :=
  match b with
  | [] => []
  | c :: b' => if (n <=? 0)%Z then b else slice_from (n - 1) b'
  end.

(** A [read] that is resumed either returns or goes on waiting, holding the
    blocks it has gathered. *)
Inductive progress : Type :=
| Wait (blocks : bytes)
| Got (data : bytes).

(** [await reader.read(n)], resumed with the blocks gathered so far.
    [n = 0] returns at once.  [n < 0] reads block after block until
    end-of-file and returns them joined.  [n > 0] waits for the buffer to
    hold something (or for end-of-file) and returns at most [n] bytes. *)
Definition read (n : Z) (blocks : bytes) (r : StreamReader)
  : progress * StreamReader :=
  if (n =? 0)%Z then (Got [], r)
  else if (n <? 0)%Z then
    if _eof r then (Got (blocks ++ _buffer r), mkReader [] true)
    else (Wait (blocks ++ _buffer r), mkReader [] false)
  else
    match _buffer r with
    | [] => if _eof r then (Got [], r) else (Wait blocks, r)
    | _ :: _ =>
      (Got (slice_to n (_buffer r)), mkReader (slice_from n (_buffer r)) (_eof r))
    end.

(** ** The prompt framing: [_read_stdout] *)

Definition marker : bytes := [xff; xff; xff; xff].

(** The two [await]s of [_read_stdout]: the line, then the payload of the
    announced length. *)
Inductive read_stdout_pc : Type :=
| AtReadline
| AtRead (length : Z) (blocks : bytes).

Inductive coroutine (A : Type) : Type :=
| Suspended (pc : read_stdout_pc)
| Raised (e : exn)
| Returned (a : A).
Arguments Suspended {A} pc.
Arguments Raised {A} e.
Arguments Returned {A} a.

(** [return (output.decode(), is_prompt)] *)
Definition return_decoded (output : bytes) (is_prompt : bool)
  : coroutine (str * bool) :=
  match decode output with
  | Some t => Returned (t, is_prompt)
  | None => Raised UnicodeDecodeError
  end.

(** From [output = await stdout.read(length)] on. *)
Definition _read_stdout_payload (length : Z) (blocks : bytes)
  (stdout : StreamReader) : coroutine (str * bool) * StreamReader :=
  match read length blocks stdout with
  | (Wait got, r) => (Suspended (AtRead length got), r)
  | (Got output, r) => (return_decoded output true, r)
  end.

(** [_read_stdout], resumed at [pc]. *)
Definition _read_stdout (pc : read_stdout_pc) (stdout : StreamReader)
  : coroutine (str * bool) * StreamReader :=
  match pc with
  | AtReadline =>
    match readline stdout with
    | (Pending, r) => (Suspended AtReadline, r)
    | (Raise e, r) => (Raised e, r)
    | (Return output, r) =>
      if bytes_eqb (firstn 4 output) marker then
        match decode (skipn 4 output) with
        | None => (Raised UnicodeDecodeError, r)
        | Some field =>
          match int field with
          | None => (Raised ValueError, r)
          | Some length => _read_stdout_payload length [] r
          end
        end
      else (return_decoded output false, r)
    end
  | AtRead length blocks => _read_stdout_payload length blocks stdout
  end.

(** ** Events, the child process and the session *)

(** [WebSocketEvent(type=..., data={...})]; its JSON form is the concern of
    the transport. *)
Inductive WebSocketEvent : Type :=
| STDOUT (pid : Z) (data : str) (is_input_prompt : bool)
| STDERR (pid : Z) (data : str)
| EXIT (pid : Z) (returncode : option Z).

(** [starlette.websockets.WebSocketState] *)
Inductive WebSocketState : Type := CONNECTING | CONNECTED | DISCONNECTED.

(** The arguments of the [subprocess.Popen] call. *)
Inductive redirect : Type := PIPE | INHERIT.

Record popen_call : Type := mkCall {
  args : list string;
  stdout_to : redirect;
  stderr_to : redirect;
  stdin_from : redirect;
  text_mode : bool;
  bufsize : Z
}.

(** A [Popen] object and, behind it, the process of the operating system:
    [returncode] is the attribute ([None] until a [poll] has seen the
    end), [exit_status] is what the operating system holds for [waitpid],
    [sigkill] records that SIGKILL was sent. *)
Record Popen : Type := mkPopen {
  spawned_with : popen_call;
  pid : Z;
  returncode : option Z;
  exit_status : option Z;
  sigkill : bool
}.

(** [Popen.poll()] *)
Definition poll (p : Popen) : Popen :=
  match returncode p with
  | Some _ => p
  | None =>
    mkPopen (spawned_with p) (pid p) (exit_status p) (exit_status p) (sigkill p)
  end.

(** [Popen.kill()]: polls first and signals only a process not known to
    have ended. *)
Definition kill (p : Popen) : Popen :=
  let p' := poll p in
  match returncode p' with
  | Some _ => p'
  | None =>
    mkPopen (spawned_with p') (pid p') (returncode p') (exit_status p') true
  end.

(** Where a pump task stands: inside its read, inside [send_text], or over.
    A pump that let an exception escape would be [PumpFailed]. *)
Inductive pump_pc : Type :=
| Reading (pc : read_stdout_pc)
| Sending (ev : WebSocketEvent)
| PumpDone
| PumpFailed (e : exn).

(** A pump task with the reader it was given. *)
Record pump : Type := mkPump { reader : StreamReader; at_pc : pump_pc }.

(** Where the task of [_exit] stands: at the head of its loop (before its
    first run or in [asyncio.sleep(1)]), in [asyncio.gather], in
    [send_text], returned, or ended by an exception. *)
Inductive watcher_pc : Type :=
| Polling
| Gathering
| SendingExit (ev : WebSocketEvent)
| WatcherDone
| WatcherFailed (e : exn).

(** The object and what it reaches: the client's connection state and the
    messages the web socket has accepted (oldest first), the process, the
    three tasks, and what [print(e, sys.stderr)] has written. *)
Record session : Type := mkSession {
  _module : string;
  client_state : WebSocketState;
  sent : list WebSocketEvent;
  _process : option Popen;
  _stdout_pipe_task : option pump;
  _stderr_pipe_task : option pump;
  _exit_task : option watcher_pc;
  printed : list exn
}.

Definition set_client_state (c : WebSocketState) (s : session) : session :=
  mkSession (_module s) c (sent s) (_process s) (_stdout_pipe_task s)
            (_stderr_pipe_task s) (_exit_task s) (printed s).

Definition set_process (p : option Popen) (s : session) : session :=
  mkSession (_module s) (client_state s) (sent s) p (_stdout_pipe_task s)
            (_stderr_pipe_task s) (_exit_task s) (printed s).

Definition set_stdout_pipe_task (t : option pump) (s : session) : session :=
  mkSession (_module s) (client_state s) (sent s) (_process s) t
            (_stderr_pipe_task s) (_exit_task s) (printed s).

Definition set_stderr_pipe_task (t : option pump) (s : session) : session :=
  mkSession (_module s) (client_state s) (sent s) (_process s)
            (_stdout_pipe_task s) t (_exit_task s) (printed s).

Definition set_exit_task (t : option watcher_pc) (s : session) : session :=
  mkSession (_module s) (client_state s) (sent s) (_process s)
            (_stdout_pipe_task s) (_stderr_pipe_task s) t (printed s).

(** [await self._client.send_text(...)] returning. *)
Definition send_text (ev : WebSocketEvent) (s : session) : session :=
  mkSession (_module s) (client_state s) (sent s ++ [ev]) (_process s)
            (_stdout_pipe_task s) (_stderr_pipe_task s) (_exit_task s)
            (printed s).

(** [print(e, sys.stderr)] *)
Definition print (e : exn) (s : session) : session :=
  mkSession (_module s) (client_state s) (sent s) (_process s)
            (_stdout_pipe_task s) (_stderr_pipe_task s) (_exit_task s)
            (printed s ++ [e]).

(** [__init__] *)
Definition __init__ (module : string) (client : WebSocketState) : session :=
  mkSession module client [] None None None None [].

(** ** The methods *)

Definition _open_child_process (s : session) : popen_call :=
  mkCall ["python3"; "-Xfrozen_modules=off"; "-m"; "server.wrappers.module";
          _module s]%string
         PIPE PIPE PIPE true 0.

Definition client_connected (s : session) : bool :=
  match client_state s with CONNECTED => true | _ => false end.

(** [self._process and self._process.poll() is not None]; the poll may set
    [returncode]. *)
Definition subprocess_exited (s : session) : bool * session :=
  match _process s with
  | None => (false, s)
  | Some p =>
    let p' := poll p in
    (match returncode p' with Some _ => true | None => false end,
     set_process (Some p') s)
  end.

(** What the operating system answers to the spawn. *)
Inductive spawn_result : Type :=
| Spawned (pid : Z)
| SpawnFails.

Definition fresh_pump : pump := mkPump (mkReader [] false) (Reading AtReadline).

(** [start].  The spawn comes first, with no test of [self._process]
    before it.  [_connect_input_pipe] and [_connect_output_pipes] register
    the pipes with the event loop and hand back fresh readers; they read
    nothing.  The three tasks are created at their first [await].  The
    attributes are overwritten: the tasks of an earlier [start] on the same
    object go on in the event loop, out of the session's reach, and are not
    followed here. *)
Definition start (os : spawn_result) (s : session) : outcome Z * session :=
  match os with
  | SpawnFails => (Raise OSError, s)
  | Spawned child =>
    (Return child,
     mkSession (_module s) (client_state s) (sent s)
               (Some (mkPopen (_open_child_process s) child None None false))
               (Some fresh_pump) (Some fresh_pump) (Some Polling)
               (printed s))
  end.

(** [await_end] *)
Definition await_end (s : session) : outcome (option Z) :=
  match _process s with
  | None => Raise ProcessNotStarted
  | Some p =>
    match _exit_task s with
    | Some WatcherDone => Return (returncode p)
    | Some (WatcherFailed e) => Raise e
    | _ => Pending
    end
  end.

(** The body of both pump loops after the read, with the event of the pump
    as [event]: leave the loop, enter [send_text], or read again. *)
Definition relay (event : Z -> str -> WebSocketEvent) (output : str)
  (s : session) : pump_pc * session :=
  let '(leave, s1) :=
    match output with
    | [] => let (exited, s') := subprocess_exited s in
            (exited || negb (client_connected s'), s')
    | _ :: _ => (negb (client_connected s), s)
    end in
  if leave then (PumpDone, s1)
  else
    match output, _process s1 with
    | _ :: _, Some p => (Sending (event (pid p) output), s1)
    | _, _ => (Reading AtReadline, s1)
    end.

(** One resumption of [_stdout_pipe]: from the [await] the task is at to
    the next one.  An exception of the read is printed and the loop goes
    on. *)
Definition _stdout_pipe (t : pump) (s : session) : pump * session :=
  match at_pc t with
  | Reading pc =>
    match _read_stdout pc (reader t) with
    | (Suspended pc', r) => (mkPump r (Reading pc'), s)
    | (Raised e, r) => (mkPump r (Reading AtReadline), print e s)
    | (Returned (output, is_prompt), r) =>
      let (next, s') := relay (fun p d => STDOUT p d is_prompt) output s in
      (mkPump r next, s')
    end
  | Sending ev => (mkPump (reader t) (Reading AtReadline), send_text ev s)
  | PumpDone | PumpFailed _ => (t, s)
  end.

(** One resumption of [_stderr_pipe]. *)
Definition _stderr_pipe (t : pump) (s : session) : pump * session :=
  match at_pc t with
  | Reading _ =>
    match readline (reader t) with
    | (Pending, r) => (mkPump r (Reading AtReadline), s)
    | (Raise e, r) => (mkPump r (Reading AtReadline), print e s)
    | (Return line, r) =>
      match decode line with
      | None => (mkPump r (Reading AtReadline), print UnicodeDecodeError s)
      | Some output =>
        let (next, s') := relay STDERR output s in (mkPump r next, s')
      end
    end
  | Sending ev => (mkPump (reader t) (Reading AtReadline), send_text ev s)
  | PumpDone | PumpFailed _ => (t, s)
  end.

(** [send_text] raising inside a pump: [except Exception] prints, and the
    loop goes on. *)
Definition pump_send_raises (e : exn) (t : pump) (s : session)
  : pump * session :=
  match at_pc t with
  | Sending _ => (mkPump (reader t) (Reading AtReadline), print e s)
  | _ => (t, s)
  end.

(** [asyncio.CancelledError] at the [await] of a pump: [break]. *)
Definition pump_cancelled (t : pump) : pump :=
  match at_pc t with
  | Reading _ | Sending _ => mkPump (reader t) PumpDone
  | _ => t
  end.

(** What [asyncio.gather] of the two pump tasks reports. *)
Definition gather (out err : pump) : outcome unit :=
  match at_pc out, at_pc err with
  | PumpFailed e, _ => Raise e
  | _, PumpFailed e => Raise e
  | PumpDone, PumpDone => Return tt
  | _, _ => Pending
  end.

(** One resumption of [_exit]. *)
Definition _exit (pc : watcher_pc) (s : session) : watcher_pc * session :=
  match pc with
  | Polling =>
    match _process s with
    | None => (WatcherDone, s)
    | Some p =>
      let s1 := if client_connected s then s
                else set_process (Some (kill p)) s in
      let (exited, s2) := subprocess_exited s1 in
      if exited then (Gathering, s2) else (Polling, s2)
    end
  | Gathering =>
    match _stdout_pipe_task s, _stderr_pipe_task s with
    | Some out, Some err =>
      match gather out err with
      | Pending => (Gathering, s)
      | Raise e => (WatcherFailed e, s)
      | Return _ =>
        if client_connected s then
          match _process s with
          | Some p => (SendingExit (EXIT (pid p) (returncode p)), s)
          | None => (WatcherFailed AttributeError, s)
          end
        else (WatcherDone, s)
      end
    | _, _ => (WatcherFailed AttributeError, s)
    end
  | SendingExit ev => (WatcherDone, send_text ev s)
  | WatcherDone | WatcherFailed _ => (pc, s)
  end.

(** [send_text] raising inside [_exit]: nothing catches it. *)
Definition exit_send_raises (e : exn) (pc : watcher_pc) : watcher_pc :=
  match pc with
  | SendingExit _ => WatcherFailed e
  | _ => pc
  end.

(** ** The event loop

    The three tasks share one thread: a task runs from one [await] to the
    next, and between two such runs the world moves: the transports feed the
    readers, the child ends, the client comes and goes.  A label names one
    such move; a move that cannot happen leaves the state as it is. *)

Inductive task_id : Type := StdoutPipe | StderrPipe | ExitTask.

(** The two pipes that are read; each has its reader and its pump. *)
Inductive pipe : Type := Stdout | Stderr.

(** - [Feed] and [FeedEof]: the transport of a pipe hands its reader what
      the child wrote, or the end of the stream;
    - [ChildExits]: the child ends, by itself or killed;
    - [ClientConnects], [ClientDisconnects]: the state of the client changes
      (the web socket's owner receives the message that says so);
    - [Resume]: the operation a task awaits completes, if it can (a read
      that finds what it waits for, a [send_text] that returns, the end of
      the sleep, of the [gather]);
    - [SendRaises]: the [send_text] a task is in raises;
    - [Cancel]: a pump task is cancelled.
    [start] is not among them: a run is the life of the three tasks of one
    [start]. *)
Inductive label : Type :=
| Feed (fd : pipe) (data : bytes)
| FeedEof (fd : pipe)
| ChildExits (status : Z)
| ClientConnects
| ClientDisconnects
| Resume (t : task_id)
| SendRaises (t : task_id) (e : exn)
| Cancel (fd : pipe).

(** [StreamReader.feed_data] and [feed_eof], called by the transport. *)
Definition feed_data (data : bytes) (r : StreamReader) : StreamReader :=
  if _eof r then r else mkReader (_buffer r ++ data) false.

Definition feed_eof (r : StreamReader) : StreamReader :=
  mkReader (_buffer r) true.

Definition on_reader (f : StreamReader -> StreamReader) (t : pump) : pump :=
  mkPump (f (reader t)) (at_pc t).

(** The end of the process, as the operating system records it. *)
Definition child_exits (status : Z) (p : Popen) : Popen :=
  match exit_status p with
  | Some _ => p
  | None =>
    mkPopen (spawned_with p) (pid p) (returncode p) (Some status) (sigkill p)
  end.

Definition exec (l : label) (s : session) : session :=
  match l with
  | Feed Stdout data =>
    set_stdout_pipe_task
      (option_map (on_reader (feed_data data)) (_stdout_pipe_task s)) s
  | Feed Stderr data =>
    set_stderr_pipe_task
      (option_map (on_reader (feed_data data)) (_stderr_pipe_task s)) s
  | FeedEof Stdout =>
    set_stdout_pipe_task
      (option_map (on_reader feed_eof) (_stdout_pipe_task s)) s
  | FeedEof Stderr =>
    set_stderr_pipe_task
      (option_map (on_reader feed_eof) (_stderr_pipe_task s)) s
  | ChildExits status =>
    set_process (option_map (child_exits status) (_process s)) s
  | ClientConnects =>
    match client_state s with
    | CONNECTING => set_client_state CONNECTED s
    | _ => s
    end
  | ClientDisconnects => set_client_state DISCONNECTED s
  | Resume StdoutPipe =>
    match _stdout_pipe_task s with
    | Some t => let (t', s') := _stdout_pipe t s in
                set_stdout_pipe_task (Some t') s'
    | None => s
    end
  | Resume StderrPipe =>
    match _stderr_pipe_task s with
    | Some t => let (t', s') := _stderr_pipe t s in
                set_stderr_pipe_task (Some t') s'
    | None => s
    end
  | Resume ExitTask =>
    match _exit_task s with
    | Some pc => let (pc', s') := _exit pc s in set_exit_task (Some pc') s'
    | None => s
    end
  | SendRaises StdoutPipe e =>
    match _stdout_pipe_task s with
    | Some t => let (t', s') := pump_send_raises e t s in
                set_stdout_pipe_task (Some t') s'
    | None => s
    end
  | SendRaises StderrPipe e =>
    match _stderr_pipe_task s with
    | Some t => let (t', s') := pump_send_raises e t s in
                set_stderr_pipe_task (Some t') s'
    | None => s
    end
  | SendRaises ExitTask e =>
    set_exit_task (option_map (exit_send_raises e) (_exit_task s)) s
  | Cancel Stdout =>
    set_stdout_pipe_task (option_map pump_cancelled (_stdout_pipe_task s)) s
  | Cancel Stderr =>
    set_stderr_pipe_task (option_map pump_cancelled (_stderr_pipe_task s)) s
  end.

(** A run: the moves of a trace, one after the other. *)
Definition run (tr : list label) (s : session) : session :=
  fold_left (fun s l => exec l s) tr s.

(** A session whose [start] has returned [child]. *)
Definition started (module : string) (client : WebSocketState) (child : Z)
  : session :=
  snd (start (Spawned child) (__init__ module client)).

(** * The vocabulary of the properties *)

Definition no_newline (b : bytes) : Prop := ~ In newline b.

Definition digit (c : N) : Prop := is_digit c = true.

(** The decoder resumed after each chunk the transport feeds, and a last
    time after end-of-file. *)
Fixpoint read_stdout_fed (chunks : list bytes) (pc : read_stdout_pc)
  (r : StreamReader) : coroutine (str * bool) * StreamReader :=
  match _read_stdout pc r with
  | (Suspended pc', r') =>
    match chunks with
    | c :: cs => read_stdout_fed cs pc' (feed_data c r')
    | [] => _read_stdout pc' (feed_eof r')
    end
  | done => done
  end.

Definition is_exit (ev : WebSocketEvent) : bool :=
  match ev with EXIT _ _ => true | _ => false end.

(** The session after a poll of its process. *)
Definition polled (s : session) : session :=
  set_process (option_map poll (_process s)) s.

(** The effect of a pump's resumption from [t] in [s] to [t'] in [s']:
    - from a read, the session is unchanged, or its process was polled, or
      an exception was printed; the pump enters [send_text] only with a
      client that is connected, and then with an event that is no [EXIT];
    - from [send_text], the event joins the messages sent and the pump is
      back at its read;
    - a pump that is over stays as it is. *)
Definition pump_effect (t : pump) (s : session) (t' : pump) (s' : session)
  : Prop :=
  match at_pc t with
  | Reading _ =>
    (s' = s \/ s' = polled s \/ exists e, s' = print e s)
    /\ match at_pc t' with
       | Sending ev => client_connected s = true /\ is_exit ev = false /\ s' = s
       | PumpFailed _ => False
       | _ => True
       end
  | Sending ev => s' = send_text ev s /\ at_pc t' = Reading AtReadline
  | PumpDone | PumpFailed _ => t' = t /\ s' = s
  end.

Definition no_exit (l : list WebSocketEvent) : Prop :=
  Forall (fun ev => is_exit ev = false) l.

Definition pump_done (t : pump) : Prop := at_pc t = PumpDone.

(** A pump has not failed and, inside [send_text], carries no [EXIT]. *)
Definition pump_ok (t : pump) : Prop :=
  match at_pc t with
  | Sending ev => is_exit ev = false
  | PumpFailed _ => False
  | _ => True
  end.

(** [returncode], once set, is the status the operating system holds. *)
Definition consistent (p : Popen) : Prop :=
  forall rc, returncode p = Some rc -> exit_status p = Some rc.

(** What holds at each point of [_exit]: no [EXIT] has been sent before the
    watcher's own send; past the poll that saw the end, [returncode] is set;
    past [gather], both pumps are over; and once the watcher has returned,
    an [EXIT] among the messages is the last of them and the only one. *)
Definition watcher_inv (p : Popen) (out err : pump)
  (msgs : list WebSocketEvent) (pc : watcher_pc) : Prop :=
  match pc with
  | Polling => no_exit msgs
  | Gathering => no_exit msgs /\ returncode p <> None
  | SendingExit ev =>
    no_exit msgs /\ pump_done out /\ pump_done err /\ returncode p <> None
    /\ ev = EXIT (pid p) (returncode p)
  | WatcherDone =>
    pump_done out /\ pump_done err /\ returncode p <> None
    /\ (no_exit msgs
        \/ exists before, msgs = before ++ [EXIT (pid p) (returncode p)]
                          /\ no_exit before)
  | WatcherFailed _ =>
    no_exit msgs /\ pump_done out /\ pump_done err /\ returncode p <> None
  end.

Record inv (child : Z) (s : session) (p : Popen) (out err : pump)
  (pc : watcher_pc) : Prop := mkInv {
  inv_process : _process s = Some p;
  inv_stdout : _stdout_pipe_task s = Some out;
  inv_stderr : _stderr_pipe_task s = Some err;
  inv_exit : _exit_task s = Some pc;
  inv_pid : pid p = child;
  inv_consistent : consistent p;
  inv_out_ok : pump_ok out;
  inv_err_ok : pump_ok err;
  inv_watcher : watcher_inv p out err (sent s) pc
}.

Definition invariant (child : Z) (s : session) : Prop :=
  exists p out err pc, inv child s p out err pc.


(** The scenario of the specification: ["a\n"] on standard output, ["b\n"]
    on standard error, then the child ends with status 0. *)
Definition scenario : list label :=
  [Feed Stdout (bytes_of "a" ++ [newline]);
   Feed Stderr (bytes_of "b" ++ [newline]);
   Resume StdoutPipe; Resume StderrPipe; Resume StdoutPipe; Resume StderrPipe;
   ChildExits 0; FeedEof Stdout; FeedEof Stderr;
   Resume ExitTask; Resume StdoutPipe; Resume StderrPipe;
   Resume ExitTask; Resume ExitTask].

(** The interpreter's reading of the words after the program: options up to
    [-m], the module to run, and the arguments left to that module. *)
Fixpoint options_then_module (l : list string)
  : option (list string * string * list string) :=
  match l with
  | [] => None
  | o :: l' =>
    if String.eqb o "-m" then
      match l' with
      | m :: rest => Some ([], m, rest)
      | [] => None
      end
    else if String.prefix "-" o then
      match options_then_module l' with
      | Some (os, m, rest) => Some (o :: os, m, rest)
      | None => None
      end
    else None
  end.

Definition command_line (c : popen_call)
  : option (string * list string * string * list string) :=
  match args c with
  | program :: l =>
    match options_then_module l with
    | Some (os, m, rest) => Some (program, os, m, rest)
    | None => None
    end
  | [] => None
  end.

(** A marker line whose length field is not a number, followed by an
    ordinary line. *)
Definition malformed_then_line : bytes :=
  marker ++ bytes_of "abc" ++ [newline] ++ bytes_of "ok" ++ [newline].

(** The child ends, both pumps drain, the watcher gathers them and enters
    [send_text] with a connected client; the send raises. *)
Definition exit_send_fails : list label :=
  [ChildExits 0; FeedEof Stdout; FeedEof Stderr;
   Resume StdoutPipe; Resume StderrPipe; Resume ExitTask; Resume ExitTask;
   SendRaises ExitTask (TransportError 0)].

(** The events inside a [send_text] that has not returned yet. *)
Definition pump_in_flight (t : option pump) : list WebSocketEvent :=
  match t with
  | Some t => match at_pc t with Sending ev => [ev] | _ => [] end
  | None => []
  end.

Definition watcher_in_flight (t : option watcher_pc) : list WebSocketEvent :=
  match t with
  | Some (SendingExit ev) => [ev]
  | _ => []
  end.

Definition in_flight (s : session) : list WebSocketEvent :=
  pump_in_flight (_stdout_pipe_task s)
  ++ pump_in_flight (_stderr_pipe_task s)
  ++ watcher_in_flight (_exit_task s).

(** A move with the client away: the client is still away, and what the
    move adds to the messages ([landed]) or gives up ([dropped]) was in
    flight before it. *)
Definition quiet (s s' : session) : Prop :=
  client_connected s' = false
  /\ exists landed dropped,
       sent s' = sent s ++ landed
       /\ Permutation (landed ++ dropped ++ in_flight s') (in_flight s).

(** ** The vocabulary of the further properties *)

(** The ASCII digit of [d < 10]. *)
Definition digit_byte (d : N) : byte :=
  match d with
  | 0 => x30 | 1 => x31 | 2 => x32 | 3 => x33 | 4 => x34
  | 5 => x35 | 6 => x36 | 7 => x37 | 8 => x38 | _ => x39
  end%N.

(** The decimal digits of [n], the last one first in the making. *)
Fixpoint decimal_aux (fuel : nat) (n : N) (acc : bytes) : bytes :=
  match fuel with
  | O => acc
  | S fuel' =>
    let acc' := digit_byte (n mod 10) :: acc in
    if (n / 10 =? 0)%N then acc' else decimal_aux fuel' (n / 10) acc'
  end.

(** [str(n).encode()]: the decimal numeral of [n]. *)
Definition decimal (n : N) : bytes :=
  decimal_aux (S (N.to_nat (N.log2 n))) n [].

(** A prompt as the framing carries it: the marker, the length of the
    payload in decimal, a newline, the payload. *)
Definition frame (payload : bytes) : bytes :=
  marker ++ decimal (size payload) ++ newline :: payload.

Definition ascii_digit (b : byte) : Prop := digit (Byte.to_N b).

(** A unit as it travels on standard output, with the text and the flag the
    decoder gives it: a line that does not start with the marker, or the
    frame of a payload that is not empty. *)
Inductive stdout_unit : bytes -> str -> bool -> Prop :=
| line_unit (body : bytes) (t : str) :
    no_newline body ->
    firstn 4 (body ++ [newline]) <> marker ->
    (size body <= _limit)%N ->
    decode (body ++ [newline]) = Some t ->
    stdout_unit (body ++ [newline]) t false
| prompt_unit (payload : bytes) (t : str) :
    payload <> [] ->
    (N.log2 (size payload) < 4300)%N ->
    decode payload = Some t ->
    stdout_unit (frame payload) t true.

(** A stream of such units, one after the other. *)
Inductive stdout_stream : bytes -> list (str * bool) -> Prop :=
| stdout_end : stdout_stream [] []
| stdout_next (u : bytes) (t : str) (b : bool) (bs : bytes)
    (us : list (str * bool)) :
    stdout_unit u t b -> stdout_stream bs us ->
    stdout_stream (u ++ bs) ((t, b) :: us).

(** The lines of standard error with their texts. *)
Inductive stderr_stream : bytes -> list str -> Prop :=
| stderr_end : stderr_stream [] []
| stderr_next (body : bytes) (t : str) (bs : bytes) (ts : list str) :
    no_newline body -> (size body <= _limit)%N ->
    decode (body ++ [newline]) = Some t ->
    stderr_stream bs ts ->
    stderr_stream ((body ++ [newline]) ++ bs) (t :: ts).

(** [send_text] returning for each event in turn. *)
Definition send_all (evs : list WebSocketEvent) (s : session) : session :=
  fold_left (fun s ev => send_text ev s) evs s.

Definition stdout_events (child : Z) (us : list (str * bool))
  : list WebSocketEvent :=
  map (fun u => STDOUT child (fst u) (snd u)) us.

Definition stderr_events (child : Z) (ts : list str) : list WebSocketEvent :=
  map (STDERR child) ts.

(** A task resumed [n] times in a row. *)
Definition resumed (n : nat) (t : task_id) : list label :=
  repeat (Resume t) n.


(** The watcher has come to its end, one way or the other. *)
Definition terminal (pc : watcher_pc) : Prop :=
  match pc with
  | WatcherDone | WatcherFailed _ => True
  | _ => False
  end.

(** What one move can make of the process: nothing, a poll, its end, or,
    with the client away, a kill followed by a poll. *)
Definition process_moved (l : label) (connected : bool) (p p' : Popen)
  : Prop :=
  p' = p \/ p' = poll p
  \/ (exists status, l = ChildExits status /\ p' = child_exits status p)
  \/ (connected = false /\ l = Resume ExitTask /\ p' = poll (kill p)).

(** The pump task of a pipe. *)
Definition pump_of (fd : pipe) (s : session) : option pump :=
  match fd with
  | Stdout => _stdout_pipe_task s
  | Stderr => _stderr_pipe_task s
  end.

(** An event carries [child] as its pid, and data if it is output. *)
Definition event_of (child : Z) (ev : WebSocketEvent) : Prop :=
  match ev with
  | STDOUT q d _ => q = child /\ d <> []
  | STDERR q d => q = child /\ d <> []
  | EXIT q _ => q = child
  end.

(** Moves in which the client stays and no pump is cancelled. *)
Definition undisturbed (l : label) : Prop :=
  l <> ClientDisconnects /\ forall fd, l <> Cancel fd.

(** The task that pumps a pipe. *)
Definition task_of (fd : pipe) : task_id :=
  match fd with
  | Stdout => StdoutPipe
  | Stderr => StderrPipe
  end.

(** * Properties *)

(** ** The reader *)

Lemma find_newline_line (line rest : bytes) :
  no_newline line ->
  find_newline (line ++ newline :: rest) = Some (line ++ [newline], rest).
Proof.
  unfold no_newline. induction line as [|c line IH]; intros Hn; simpl.
  - reflexivity.
  - destruct (Byte.eqb c newline) eqn:E.
    + apply Byte.byte_dec_bl in E. subst c. exfalso. apply Hn. now left.
    + rewrite IH; [reflexivity|]. intros H. apply Hn. now right.
Qed.

Lemma find_newline_none (b : bytes) :
  no_newline b -> find_newline b = None.
Proof.
  unfold no_newline. induction b as [|c b IH]; intros Hn; simpl.
  - reflexivity.
  - destruct (Byte.eqb c newline) eqn:E.
    + apply Byte.byte_dec_bl in E. subst c. exfalso. apply Hn. now left.
    + rewrite IH; [reflexivity|]. intros H. apply Hn. now right.
Qed.

Lemma size_app_newline (line : bytes) :
  (size (line ++ [newline]) - 1 = size line)%N.
Proof. unfold size. rewrite length_app. simpl. lia. Qed.

(** A complete line within the limit is returned whole, newline included,
    and nothing more is taken from the buffer. *)
Lemma readline_line (line rest : bytes) (eof : bool) :
  no_newline line -> (size line <= _limit)%N ->
  readline (mkReader (line ++ newline :: rest) eof)
  = (Return (line ++ [newline]), mkReader rest eof).
Proof.
  intros Hn Hl. unfold readline. simpl.
  rewrite (find_newline_line _ Hn), size_app_newline.
  destruct (N.ltb_spec _limit (size line)); [lia|reflexivity].
Qed.

(** A line beyond the limit is dropped with a [ValueError]. *)
Lemma readline_overrun (line rest : bytes) (eof : bool) :
  no_newline line -> (_limit < size line)%N ->
  readline (mkReader (line ++ newline :: rest) eof)
  = (Raise ValueError, mkReader rest eof).
Proof.
  intros Hn Hl. unfold readline. simpl.
  rewrite (find_newline_line _ Hn), size_app_newline.
  destruct (N.ltb_spec _limit (size line)); [reflexivity|lia].
Qed.

Lemma slice_to_app (a b : bytes) :
  slice_to (Z.of_nat (List.length a)) (a ++ b) = a.
Proof.
  induction a as [|c a IH]; simpl List.length.
  - destruct b; reflexivity.
  - cbn [app slice_to]. destruct (Z.leb_spec (Z.of_nat (S (List.length a))) 0); [lia|].
    replace (Z.of_nat (S (List.length a)) - 1)%Z with (Z.of_nat (List.length a)) by lia.
    now rewrite IH.
Qed.

Lemma slice_from_app (a b : bytes) :
  slice_from (Z.of_nat (List.length a)) (a ++ b) = b.
Proof.
  induction a as [|c a IH]; simpl List.length.
  - destruct b; reflexivity.
  - cbn [app slice_from]. destruct (Z.leb_spec (Z.of_nat (S (List.length a))) 0); [lia|].
    replace (Z.of_nat (S (List.length a)) - 1)%Z with (Z.of_nat (List.length a)) by lia.
    exact IH.
Qed.

(** [read(n)] with the [n] bytes at hand returns exactly those. *)
Lemma read_all_there (payload rest : bytes) (eof : bool) :
  payload <> [] ->
  read (Z.of_nat (List.length payload)) [] (mkReader (payload ++ rest) eof)
  = (Got payload, mkReader rest eof).
Proof.
  intros Hp. unfold read.
  destruct payload as [|c payload]; [congruence|].
  destruct (Z.eqb_spec (Z.of_nat (List.length (c :: payload))) 0);
    [simpl in *; lia|].
  destruct (Z.ltb_spec (Z.of_nat (List.length (c :: payload))) 0); [lia|].
  cbn [_buffer _eof]. change ((c :: payload) ++ rest) with (c :: (payload ++ rest)) at 1.
  cbv iota. change (c :: payload ++ rest) with ((c :: payload) ++ rest).
  now rewrite slice_to_app, slice_from_app.
Qed.

Lemma bytes_eqb_eq (a b : bytes) : bytes_eqb a b = true <-> a = b.
Proof. unfold bytes_eqb. destruct (list_eq_dec _ a b); split; congruence. Qed.

Lemma bytes_eqb_neq (a b : bytes) : bytes_eqb a b = false <-> a <> b.
Proof. unfold bytes_eqb. destruct (list_eq_dec _ a b); split; congruence. Qed.

(** ** Prompt framing *)

(** A marker line announcing [length] bytes that are all in the buffer: the
    unit is those bytes, flagged as a prompt, and the buffer keeps what
    follows them. *)
Lemma read_stdout_prompt (field payload rest : bytes) (eof : bool)
  (digits : str) (t : str) :
  no_newline field -> (size (marker ++ field) <= _limit)%N ->
  decode (field ++ [newline]) = Some digits ->
  int digits = Some (Z.of_nat (List.length payload)) ->
  payload <> [] ->
  decode payload = Some t ->
  _read_stdout AtReadline
    (mkReader (marker ++ field ++ newline :: payload ++ rest) eof)
  = (Returned (t, true), mkReader rest eof).
Proof.
  intros Hn Hl Hd Hi Hp Ht. unfold _read_stdout.
  change (marker ++ field ++ newline :: payload ++ rest)
    with ((marker ++ field) ++ newline :: payload ++ rest).
  rewrite readline_line; [|unfold no_newline in *; intros H; apply in_app_or in H;
    destruct H as [H|H]; [simpl in H; intuition discriminate | auto] | assumption].
  rewrite <- app_assoc.
  change (firstn 4 (marker ++ field ++ [newline])) with marker.
  change (skipn 4 (marker ++ field ++ [newline])) with (field ++ [newline]).
  replace (bytes_eqb marker marker) with true by (symmetry; now apply bytes_eqb_eq).
  rewrite Hd, Hi. unfold _read_stdout_payload.
  rewrite read_all_there by assumption.
  unfold return_decoded. now rewrite Ht.
Qed.



(** [read(n)] takes what the buffer holds, up to [n] bytes: a payload of
    which only a part has reached the reader comes back as that part. *)
Example read_stdout_payload_in_transit :
  _read_stdout AtReadline
    (mkReader (marker ++ bytes_of "5" ++ newline :: bytes_of "he") false)
  = (Returned (text "he", true), mkReader [] false).
Proof. reflexivity. Qed.

(** The payload may hold newlines: they are part of the unit. *)
Example read_stdout_marker_five_newlines :
  _read_stdout AtReadline
    (mkReader (marker ++ bytes_of "5" ++ newline
               :: (bytes_of "a" ++ newline :: bytes_of "b" ++ newline :: bytes_of "c")
               ++ bytes_of "next") false)
  = (Returned ([97; 10; 98; 10; 99]%N, true), mkReader (bytes_of "next") false).
Proof. reflexivity. Qed.

(** ** Line framing *)

Lemma marker_line_no_newline (field : bytes) :
  no_newline field -> no_newline (marker ++ field).
Proof.
  unfold no_newline. intros Hn H. apply in_app_or in H.
  destruct H as [H|H]; [simpl in H; intuition discriminate|auto].
Qed.

(** C5, as the specification words it, on the line ["a\n"]: the text of the
    unit is not ["a"], it is the line with its newline. *)
Lemma read_stdout_line_keeps_newline :
  fst (_read_stdout AtReadline (mkReader (bytes_of "a" ++ [newline]) false))
  <> Returned (text "a", false)
  /\ fst (_read_stdout AtReadline (mkReader (bytes_of "a" ++ [newline]) false))
     = Returned (text "a" ++ [10%N], false).
Proof. split; [discriminate|reflexivity]. Qed.

(** C5, amended.  A line that does not start with the marker is taken from
    the buffer through its newline and decoded whole: the unit has
    [is_prompt = false] and its text is the line, newline included.  A line
    longer than the reader's limit, or one that is not UTF-8, raises instead.
    At end-of-file the bytes left without a newline are a last unit of the
    same kind. *)
Theorem read_stdout_line (line rest : bytes) (eof : bool) :
  no_newline line ->
  firstn 4 (line ++ [newline]) <> marker ->
  _read_stdout AtReadline (mkReader (line ++ newline :: rest) eof)
  = (if (_limit <? size line)%N then Raised ValueError
     else match decode (line ++ [newline]) with
          | Some t => Returned (t, false)
          | None => Raised UnicodeDecodeError
          end,
     mkReader rest eof)
  /\ _read_stdout AtReadline (mkReader line true)
     = (if (_limit <? size line)%N then Raised ValueError
        else match decode line with
             | Some t => Returned (t, false)
             | None => Raised UnicodeDecodeError
             end,
        mkReader [] true).
Proof.
  intros Hn Hm. split.
  - unfold _read_stdout.
    destruct (N.ltb_spec _limit (size line)) as [Hl|Hl].
    + now rewrite readline_overrun.
    + rewrite readline_line by assumption.
      apply bytes_eqb_neq in Hm. rewrite Hm. reflexivity.
  - unfold _read_stdout, readline. cbn [_buffer _eof].
    rewrite (find_newline_none Hn).
    destruct (N.ltb_spec _limit (size line)) as [Hl|Hl]; [reflexivity|].
    destruct (bytes_eqb (firstn 4 line) marker) eqn:E; [|reflexivity].
    exfalso. apply Hm. apply bytes_eqb_eq in E.
    assert (Hlen : List.length (firstn 4 line) = 4%nat) by now rewrite E.
    rewrite firstn_app, E.
    rewrite length_firstn in Hlen.
    replace (4 - List.length line)%nat with 0%nat by lia.
    reflexivity.
Qed.

Lemma read_stdout_line_witness :
  no_newline (bytes_of "a") /\
  firstn 4 (bytes_of "a" ++ [newline]) <> marker /\
  _read_stdout AtReadline (mkReader (bytes_of "a" ++ newline :: bytes_of "b") false)
  = (Returned ([97; 10]%N, false), mkReader (bytes_of "b") false).
Proof.
  assert (Hn : no_newline (bytes_of "a"))
    by (unfold no_newline; simpl; intuition discriminate).
  assert (Hm : firstn 4 (bytes_of "a" ++ [newline]) <> marker) by discriminate.
  split; [exact Hn|]. split; [exact Hm|].
  exact (proj1 (@read_stdout_line (bytes_of "a") (bytes_of "b") false Hn Hm)).
Defined.

(** ** Negative lengths *)

Lemma digit_ascii (c : N) : digit c -> ascii_of_codepoint c = Some c.
Proof.
  unfold digit, is_digit, ascii_of_codepoint. intros H.
  apply andb_prop in H. destruct H as [_ H]. apply N.leb_le in H.
  destruct (N.ltb_spec c 127); [reflexivity|lia].
Qed.

Lemma transform_digits (ds : list N) (tail : list N) :
  Forall digit ds ->
  transform_decimal_and_space_to_ascii tail = Some tail ->
  transform_decimal_and_space_to_ascii (ds ++ tail) = Some (ds ++ tail).
Proof.
  intros Hd Ht. induction Hd as [|c ds Hc _ IH]; simpl; [exact Ht|].
  now rewrite (digit_ascii Hc), IH.
Qed.

Lemma scan_numeral_digits (ds : list N) (c : N) (tail : list N) :
  Forall digit ds -> is_digit c || is_underscore c = false ->
  scan_numeral (ds ++ c :: tail) = (ds, c :: tail).
Proof.
  intros Hd Hc. induction Hd as [|d ds Hdig _ IH]; simpl.
  - now rewrite Hc.
  - unfold digit in Hdig. now rewrite Hdig, IH.
Qed.

Lemma digit_not_underscore (c : N) : digit c -> is_underscore c = false.
Proof.
  unfold digit, is_digit, is_underscore. intros H.
  apply andb_prop in H. destruct H as [_ H]. apply N.leb_le in H.
  apply N.eqb_neq. lia.
Qed.

Lemma underscores_ok_digits (ds : list N) (prev : bool) :
  Forall digit ds -> ds <> [] -> underscores_ok prev ds = true.
Proof.
  intros Hd. revert prev. induction Hd as [|d ds Hdig Hds IH]; intros prev Hne.
  - congruence.
  - simpl. rewrite (digit_not_underscore Hdig).
    destruct ds as [|d' ds']; [reflexivity|]. apply IH. discriminate.
Qed.

Lemma digits_of_digits (ds : list N) : Forall digit ds -> digits_of ds = ds.
Proof.
  intros Hd. unfold digits_of. induction Hd as [|d ds Hdig _ IH]; simpl.
  - reflexivity.
  - unfold digit in Hdig. now rewrite Hdig, IH.
Qed.

(** A minus sign before the digits is part of what [int] takes: the field
    ["-" digits "\n"] parses, to the opposite of the number. *)
Lemma int_minus_digits (ds : list N) :
  ds <> [] -> Forall digit ds -> (List.length ds <= int_max_str_digits)%nat ->
  int (45%N :: ds ++ [10%N]) = Some (- decimal_value ds)%Z.
Proof.
  intros Hne Hd Hlen. unfold int.
  change (45%N :: ds ++ [10%N]) with ([45%N] ++ ds ++ [10%N]).
  cbn [app transform_decimal_and_space_to_ascii].
  change (ascii_of_codepoint 45%N) with (Some 45%N).
  rewrite (transform_digits Hd) by reflexivity.
  unfold PyLong_FromString.
  change (skip_space (45%N :: ds ++ [10%N])) with (45%N :: ds ++ [10%N]).
  cbv iota beta.
  rewrite (@scan_numeral_digits ds 10%N [] Hd) by reflexivity.
  destruct ds as [|d ds]; [congruence|].
  rewrite (underscores_ok_digits false Hd) by discriminate.
  rewrite (digits_of_digits Hd).
  rewrite (digit_not_underscore (Forall_inv Hd)).
  apply Nat.leb_le in Hlen. rewrite Hlen. reflexivity.
Qed.

Lemma read_negative_waits (n : Z) (blocks buf : bytes) :
  (n < 0)%Z ->
  _read_stdout (AtRead n blocks) (mkReader buf false)
  = (Suspended (AtRead n (blocks ++ buf)), mkReader [] false).
Proof.
  intros Hn. unfold _read_stdout, _read_stdout_payload, read.
  destruct (Z.eqb_spec n 0); [lia|].
  destruct (Z.ltb_spec n 0); [reflexivity|lia].
Qed.

Lemma read_negative_eof (n : Z) (blocks buf : bytes) :
  (n < 0)%Z ->
  _read_stdout (AtRead n blocks) (mkReader buf true)
  = (return_decoded (blocks ++ buf) true, mkReader [] true).
Proof.
  intros Hn. unfold _read_stdout, _read_stdout_payload, read.
  destruct (Z.eqb_spec n 0); [lia|].
  destruct (Z.ltb_spec n 0); [reflexivity|lia].
Qed.

Lemma read_negative_fed (n : Z) (chunks : list bytes) (blocks buf : bytes) :
  (n < 0)%Z ->
  read_stdout_fed chunks (AtRead n blocks) (mkReader buf false)
  = (return_decoded (blocks ++ buf ++ concat chunks) true, mkReader [] true).
Proof.
  intros Hn. revert blocks buf.
  induction chunks as [|c cs IH]; intros blocks buf; cbn [read_stdout_fed].
  - rewrite read_negative_waits by assumption.
    unfold feed_eof. cbn [_buffer]. rewrite read_negative_eof by assumption.
    simpl. now rewrite !app_nil_r.
  - rewrite read_negative_waits by assumption.
    unfold feed_data. cbn [_buffer _eof app]. rewrite IH.
    simpl. now rewrite <- app_assoc.
Qed.

(** C10.  A minus sign does not make the length field malformed, and after
    a marker line whose field parses to a negative number the decoder takes
    everything that reaches the reader until end-of-file: it stays suspended
    while the stream is open, and at end-of-file returns all those bytes,
    decoded, as one unit flagged as a prompt.  No [ValueError] comes out. *)
Theorem read_stdout_negative_length (field rest : bytes) (digits : str)
  (n : Z) (chunks : list bytes) :
  no_newline field -> (size (marker ++ field) <= _limit)%N ->
  decode (field ++ [newline]) = Some digits ->
  int digits = Some n -> (n < 0)%Z ->
  (forall ds, ds <> [] -> Forall digit ds ->
     (List.length ds <= int_max_str_digits)%nat ->
     int (45%N :: ds ++ [10%N]) = Some (- decimal_value ds)%Z)
  /\ _read_stdout AtReadline (mkReader (marker ++ field ++ newline :: rest) false)
     = (Suspended (AtRead n rest), mkReader [] false)
  /\ (forall blocks more,
        _read_stdout (AtRead n blocks) (mkReader more false)
        = (Suspended (AtRead n (blocks ++ more)), mkReader [] false))
  /\ read_stdout_fed chunks AtReadline
       (mkReader (marker ++ field ++ newline :: rest) false)
     = (match decode (rest ++ concat chunks) with
        | Some t => Returned (t, true)
        | None => Raised UnicodeDecodeError
        end, mkReader [] true)
  /\ fst (read_stdout_fed chunks AtReadline
            (mkReader (marker ++ field ++ newline :: rest) false))
     <> Raised ValueError.
Proof.
  intros Hnl Hl Hd Hi Hn.
  assert (Hfirst :
    _read_stdout AtReadline (mkReader (marker ++ field ++ newline :: rest) false)
    = _read_stdout (AtRead n []) (mkReader rest false)).
  { unfold _read_stdout at 1.
    change (marker ++ field ++ newline :: rest)
      with ((marker ++ field) ++ newline :: rest).
    rewrite readline_line by (auto using marker_line_no_newline).
    rewrite <- app_assoc.
    change (firstn 4 (marker ++ field ++ [newline])) with marker.
    change (skipn 4 (marker ++ field ++ [newline])) with (field ++ [newline]).
    replace (bytes_eqb marker marker) with true
      by (symmetry; now apply bytes_eqb_eq).
    now rewrite Hd, Hi. }
  assert (Hfed :
    read_stdout_fed chunks AtReadline
      (mkReader (marker ++ field ++ newline :: rest) false)
    = (return_decoded (rest ++ concat chunks) true, mkReader [] true)).
  { destruct chunks as [|c cs]; cbn [read_stdout_fed];
      rewrite Hfirst, read_negative_waits by assumption.
    - unfold feed_eof. cbn [_buffer app].
      rewrite read_negative_eof by assumption. reflexivity.
    - unfold feed_data. cbn [_buffer _eof app].
      rewrite read_negative_fed by assumption. reflexivity. }
  split; [exact int_minus_digits|].
  split; [rewrite Hfirst; now apply read_negative_waits|].
  split; [intros; now apply read_negative_waits|].
  split; [exact Hfed|].
  rewrite Hfed. unfold return_decoded. cbn [fst].
  destruct (decode (rest ++ concat chunks)); discriminate.
Qed.

Lemma read_stdout_negative_length_witness :
  int (text "-5" ++ [10%N]) = Some (-5)%Z /\
  read_stdout_fed [bytes_of "lo" ++ [newline]; bytes_of "x"] AtReadline
    (mkReader (marker ++ bytes_of "-5" ++ newline :: bytes_of "hel") false)
  = (Returned ([104; 101; 108; 108; 111; 10; 120]%N, true), mkReader [] true).
Proof.
  split; [reflexivity|].
  refine (proj1 (proj2 (proj2 (proj2
    (@read_stdout_negative_length (bytes_of "-5") (bytes_of "hel")
       (text "-5" ++ [10%N]) (-5)%Z
       [bytes_of "lo" ++ [newline]; bytes_of "x"] _ _ _ _ _))))).
  - unfold no_newline. simpl. intuition discriminate.
  - vm_compute. discriminate.
  - reflexivity.
  - reflexivity.
  - reflexivity.
Defined.

(** ** What one resumption of a pump does to the session *)

Lemma subprocess_exited_polled (s : session) :
  snd (subprocess_exited s) = polled s \/ snd (subprocess_exited s) = s.
Proof.
  unfold subprocess_exited, polled. destruct (_process s) eqn:E.
  - left. reflexivity.
  - right. reflexivity.
Qed.

Lemma relay_effect (event : Z -> str -> WebSocketEvent) (output : str)
  (s : session) (next : pump_pc) (s' : session) :
  (forall p d, is_exit (event p d) = false) ->
  relay event output s = (next, s') ->
  (s' = s \/ s' = polled s)
  /\ match next with
     | Sending ev => client_connected s = true /\ is_exit ev = false /\ s' = s
     | PumpFailed _ => False
     | _ => True
     end.
Proof.
  intros Hev. unfold relay. destruct output as [|c output].
  - destruct (subprocess_exited s) as [exited s1] eqn:E.
    assert (Hs1 : s1 = polled s \/ s1 = s).
    { pose proof (subprocess_exited_polled s) as H. now rewrite E in H. }
    destruct (exited || negb (client_connected s1)); intros H;
      inversion H; subst; (split; [tauto|exact I]).
  - destruct (client_connected s) eqn:Ec; cbn [negb].
    + destruct (_process s) as [p|]; intros H; inversion H; subst.
      * split; [now left|]. now rewrite Hev.
      * split; [now left|exact I].
    + intros H; inversion H; subst. split; [now left|exact I].
Qed.

Lemma stdout_pipe_effect (t : pump) (s : session) (t' : pump) (s' : session) :
  _stdout_pipe t s = (t', s') -> pump_effect t s t' s'.
Proof.
  unfold _stdout_pipe, pump_effect. destruct (at_pc t) as [pc|ev| |e].
  - destruct (_read_stdout pc (reader t)) as [[pc'|e|[output is_prompt]] r].
    + intros H; inversion H; subst. cbn. tauto.
    + intros H; inversion H; subst. cbn. split; [|exact I]. right. right. eauto.
    + destruct (relay _ output s) as [next s1] eqn:E.
      intros H; inversion H; subst. cbn [at_pc].
      apply relay_effect in E; [|reflexivity]. tauto.
  - intros H; inversion H; subst. cbn. tauto.
  - intros H; inversion H; subst. tauto.
  - intros H; inversion H; subst. tauto.
Qed.

Lemma stderr_pipe_effect (t : pump) (s : session) (t' : pump) (s' : session) :
  _stderr_pipe t s = (t', s') -> pump_effect t s t' s'.
Proof.
  unfold _stderr_pipe, pump_effect. destruct (at_pc t) as [pc|ev| |e].
  - destruct (readline (reader t)) as [[|e|line] r].
    + intros H; inversion H; subst. cbn. tauto.
    + intros H; inversion H; subst. cbn. split; [|exact I]. right. right. eauto.
    + destruct (decode line) as [output|].
      * destruct (relay STDERR output s) as [next s1] eqn:E.
        intros H; inversion H; subst. cbn [at_pc].
        apply relay_effect in E; [|reflexivity]. tauto.
      * intros H; inversion H; subst. cbn. split; [|exact I].
        right. right. eauto.
  - intros H; inversion H; subst. cbn. tauto.
  - intros H; inversion H; subst. tauto.
  - intros H; inversion H; subst. tauto.
Qed.

(** ** The invariant of a started session *)

Lemma no_exit_snoc (l : list WebSocketEvent) (ev : WebSocketEvent) :
  no_exit l -> is_exit ev = false -> no_exit (l ++ [ev]).
Proof.
  intros Hl He. apply Forall_app. split; [assumption|]. now constructor.
Qed.

Lemma poll_set (p : Popen) : returncode p <> None -> poll p = p.
Proof. unfold poll. destruct (returncode p); congruence. Qed.

Lemma poll_unset (p : Popen) :
  returncode p = None ->
  poll p = mkPopen (spawned_with p) (pid p) (exit_status p) (exit_status p)
                   (sigkill p).
Proof. unfold poll. intros H. now rewrite H. Qed.

Lemma poll_pid (p : Popen) : pid (poll p) = pid p.
Proof. unfold poll. destruct (returncode p); reflexivity. Qed.

Lemma poll_consistent (p : Popen) : consistent p -> consistent (poll p).
Proof.
  unfold consistent, poll. intros H rc.
  destruct (returncode p) eqn:E; cbn; [rewrite E; apply H|auto].
Qed.

Lemma kill_pid (p : Popen) : pid (kill p) = pid p.
Proof.
  unfold kill. cbv zeta. destruct (returncode (poll p)); cbn; apply poll_pid.
Qed.

Lemma kill_consistent (p : Popen) : consistent p -> consistent (kill p).
Proof.
  unfold kill. cbv zeta. intros H. apply poll_consistent in H.
  destruct (returncode (poll p)) eqn:E; [assumption|].
  unfold consistent. cbn. discriminate.
Qed.

Lemma kill_set (p : Popen) : returncode p <> None -> kill p = p.
Proof.
  intros H. unfold kill. cbv zeta. rewrite (poll_set _ H).
  destruct (returncode p); congruence.
Qed.

Lemma child_exits_set (status : Z) (p : Popen) :
  consistent p -> returncode p <> None -> child_exits status p = p.
Proof.
  unfold consistent, child_exits. intros Hc Hr.
  destruct (returncode p) as [rc|] eqn:E; [|congruence].
  now rewrite (Hc rc eq_refl).
Qed.

Lemma child_exits_consistent (status : Z) (p : Popen) :
  consistent p -> consistent (child_exits status p).
Proof.
  unfold consistent, child_exits. intros Hc rc.
  destruct (exit_status p) eqn:E; cbn; [rewrite E; apply Hc|].
  intros Hr. apply Hc in Hr. congruence.
Qed.

(** The watcher's invariant looks at the process only past the poll that
    saw its end, and from then on the process does not change. *)
Lemma watcher_inv_process (f : Popen -> Popen) (p : Popen) (out err : pump)
  (msgs : list WebSocketEvent) (pc : watcher_pc) :
  (returncode p <> None -> f p = p) ->
  watcher_inv p out err msgs pc -> watcher_inv (f p) out err msgs pc.
Proof.
  intros Hf. destruct pc; cbn; [tauto| | | |];
    intros H; rewrite Hf; tauto.
Qed.

(** A pump that is not over may move on. *)
Lemma watcher_inv_stdout (p : Popen) (out out' err : pump)
  (msgs : list WebSocketEvent) (pc : watcher_pc) :
  (pump_done out -> pump_done out') ->
  watcher_inv p out err msgs pc -> watcher_inv p out' err msgs pc.
Proof. destruct pc; cbn; tauto. Qed.

Lemma watcher_inv_stderr (p : Popen) (out err err' : pump)
  (msgs : list WebSocketEvent) (pc : watcher_pc) :
  (pump_done err -> pump_done err') ->
  watcher_inv p out err msgs pc -> watcher_inv p out err' msgs pc.
Proof. destruct pc; cbn; tauto. Qed.

(** While a pump is not over, the watcher has not sent, and the pump's
    event keeps the messages free of [EXIT]. *)
Lemma watcher_inv_send (p : Popen) (out err : pump)
  (msgs : list WebSocketEvent) (pc : watcher_pc) (ev : WebSocketEvent) :
  ~ pump_done out \/ ~ pump_done err -> is_exit ev = false ->
  watcher_inv p out err msgs pc -> watcher_inv p out err (msgs ++ [ev]) pc.
Proof.
  intros Hnd Hev. destruct pc; cbn; try tauto.
  - intros H. now apply no_exit_snoc.
  - intros [H1 H2]. split; [now apply no_exit_snoc|assumption].
Qed.

Section Preservation.

Variable child : Z.
Variables (s : session) (p : Popen) (out err : pump) (pc : watcher_pc).
Hypothesis Hinv : inv child s p out err pc.

Lemma inv_stdout_moves (out' : pump) :
  pump_ok out' -> (pump_done out -> pump_done out') ->
  inv child (set_stdout_pipe_task (Some out') s) p out' err pc.
Proof.
  intros Hok Hdone. destruct Hinv. constructor; cbn; try assumption.
  - reflexivity.
  - now apply watcher_inv_stdout with (out := out).
Qed.

Lemma inv_stderr_moves (err' : pump) :
  pump_ok err' -> (pump_done err -> pump_done err') ->
  inv child (set_stderr_pipe_task (Some err') s) p out err' pc.
Proof.
  intros Hok Hdone. destruct Hinv. constructor; cbn; try assumption.
  - reflexivity.
  - now apply watcher_inv_stderr with (err := err).
Qed.

Lemma inv_process_moves (f : Popen -> Popen) :
  (returncode p <> None -> f p = p) -> pid (f p) = pid p ->
  consistent (f p) ->
  inv child (set_process (Some (f p)) s) (f p) out err pc.
Proof.
  intros Hf Hpid Hc. destruct Hinv. constructor; cbn; try assumption.
  - reflexivity.
  - congruence.
  - now apply watcher_inv_process.
Qed.

Lemma inv_polled : inv child (polled s) (poll p) out err pc.
Proof.
  unfold polled. rewrite (inv_process Hinv). cbn [option_map].
  apply inv_process_moves.
  - apply poll_set.
  - apply poll_pid.
  - apply poll_consistent, (inv_consistent Hinv).
Qed.

Lemma inv_print (e : exn) : inv child (print e s) p out err pc.
Proof. destruct Hinv. constructor; cbn; assumption. Qed.

Lemma inv_client (c : WebSocketState) :
  inv child (set_client_state c s) p out err pc.
Proof. destruct Hinv. constructor; cbn; assumption. Qed.

Lemma inv_pump_sends (ev : WebSocketEvent) :
  ~ pump_done out \/ ~ pump_done err -> is_exit ev = false ->
  inv child (send_text ev s) p out err pc.
Proof.
  intros Hnd Hev. destruct Hinv. constructor; cbn; try assumption.
  now apply watcher_inv_send.
Qed.

Lemma inv_watcher_moves (pc' : watcher_pc) (msgs : list WebSocketEvent) :
  watcher_inv p out err msgs pc' ->
  inv child
    (mkSession (_module s) (client_state s) msgs (_process s)
               (_stdout_pipe_task s) (_stderr_pipe_task s) (Some pc')
               (printed s))
    p out err pc'.
Proof.
  intros Hw. destruct Hinv. constructor; cbn; try assumption. reflexivity.
Qed.

End Preservation.

Lemma invariant_of_inv (child : Z) (s : session) (p : Popen) (out err : pump)
  (pc : watcher_pc) : inv child s p out err pc -> invariant child s.
Proof. intros H. now exists p, out, err, pc. Qed.

(** From a read, a pump leaves the invariant in place. *)
Lemma inv_after_read (child : Z) (s s' : session) (p : Popen)
  (out err : pump) (pc : watcher_pc) :
  inv child s p out err pc ->
  s' = s \/ s' = polled s \/ (exists e, s' = print e s) ->
  exists p', inv child s' p' out err pc.
Proof.
  intros Hinv [->|[->|[e ->]]].
  - now exists p.
  - exists (poll p). now apply inv_polled.
  - exists p. now apply inv_print.
Qed.

Lemma pump_effect_ok (t : pump) (s : session) (t' : pump) (s' : session) :
  pump_effect t s t' s' -> pump_ok t -> pump_ok t'.
Proof.
  unfold pump_effect, pump_ok. destruct (at_pc t) eqn:E.
  - intros [_ H] _. destruct (at_pc t'); tauto.
  - intros [_ ->] _. exact I.
  - intros [-> _] _. now rewrite E.
  - tauto.
Qed.

Lemma pump_effect_done (t : pump) (s : session) (t' : pump) (s' : session) :
  pump_effect t s t' s' -> pump_done t -> pump_done t'.
Proof.
  unfold pump_effect, pump_done. intros H E. rewrite E in H.
  destruct H as [-> _]. exact E.
Qed.

Lemma pump_effect_inv_stdout (child : Z) (s s' : session) (p : Popen)
  (out out' err : pump) (pc : watcher_pc) :
  inv child s p out err pc -> pump_effect out s out' s' ->
  exists p', inv child s' p' out err pc.
Proof.
  intros Hinv. unfold pump_effect. destruct (at_pc out) eqn:E.
  - intros [H _]. now apply inv_after_read with (s := s) (p := p).
  - intros [-> _]. exists p. apply inv_pump_sends; [assumption| |].
    + left. unfold pump_done. congruence.
    + pose proof (inv_out_ok Hinv) as H. unfold pump_ok in H. now rewrite E in H.
  - intros [_ ->]. now exists p.
  - intros [_ ->]. now exists p.
Qed.

Lemma pump_effect_inv_stderr (child : Z) (s s' : session) (p : Popen)
  (out err err' : pump) (pc : watcher_pc) :
  inv child s p out err pc -> pump_effect err s err' s' ->
  exists p', inv child s' p' out err pc.
Proof.
  intros Hinv. unfold pump_effect. destruct (at_pc err) eqn:E.
  - intros [H _]. now apply inv_after_read with (s := s) (p := p).
  - intros [-> _]. exists p. apply inv_pump_sends; [assumption| |].
    + right. unfold pump_done. congruence.
    + pose proof (inv_err_ok Hinv) as H. unfold pump_ok in H. now rewrite E in H.
  - intros [_ ->]. now exists p.
  - intros [_ ->]. now exists p.
Qed.

Lemma child_exits_pid (status : Z) (p : Popen) :
  pid (child_exits status p) = pid p.
Proof. unfold child_exits. destruct (exit_status p); reflexivity. Qed.

Lemma gather_returns (out err : pump) :
  gather out err = Return tt -> pump_done out /\ pump_done err.
Proof.
  unfold gather, pump_done.
  destruct (at_pc out), (at_pc err); intros H; try discriminate; auto.
Qed.

Lemma gather_raises (out err : pump) (e : exn) :
  gather out err = Raise e -> ~ (pump_ok out /\ pump_ok err).
Proof.
  unfold gather, pump_ok.
  destruct (at_pc out), (at_pc err); intros H; try discriminate; tauto.
Qed.

(** One resumption of [_exit] keeps the invariant. *)
Lemma inv_exit_resumed (child : Z) (s : session) (p : Popen) (out err : pump)
  (pc : watcher_pc) :
  inv child s p out err pc ->
  invariant child (set_exit_task (Some (fst (_exit pc s))) (snd (_exit pc s))).
Proof.
  intros Hinv. pose proof Hinv as [Hp Ho He Hx Hpid Hc Hoo Heo Hw].
  destruct pc; cbn [_exit].
  - (* the poll *)
    rewrite Hp.
    set (p1 := if client_connected s then p else kill p).
    assert (Hs1 : (if client_connected s then s
                   else set_process (Some (kill p)) s)
                  = set_process (Some p1) s).
    { subst p1. destruct (client_connected s); [|reflexivity].
      destruct s; cbn in *. now rewrite Hp. }
    rewrite Hs1. unfold subprocess_exited. cbn [_process set_process].
    assert (Hpid1 : pid (poll p1) = child).
    { rewrite poll_pid. subst p1. destruct (client_connected s);
        [assumption|now rewrite kill_pid]. }
    assert (Hc1 : consistent (poll p1)).
    { apply poll_consistent. subst p1. destruct (client_connected s);
        [assumption|now apply kill_consistent]. }
    cbn in Hw.
    destruct (returncode (poll p1)) eqn:Er; cbn [fst snd];
      exists (poll p1), out, err; eexists;
      (constructor; cbn; try eassumption; try reflexivity).
    + split; [assumption|congruence].
    + assumption.
  - (* gather *)
    rewrite Ho, He. destruct Hw as [Hne Hr].
    destruct (gather out err) as [|e|[]] eqn:G; cbn [fst snd].
    + apply invariant_of_inv with p out err Gathering.
      destruct s; cbn in *. now constructor.
    + exfalso. apply (gather_raises _ _ G). now split.
    + apply gather_returns in G. destruct G as [Gout Gerr].
      destruct (client_connected s).
      * rewrite Hp. cbn [fst snd].
        apply invariant_of_inv with p out err
          (SendingExit (EXIT (pid p) (returncode p))).
        destruct s; cbn in *.
        constructor; cbn; try assumption; try reflexivity.
        repeat split; assumption.
      * cbn [fst snd]. apply invariant_of_inv with p out err WatcherDone.
        destruct s; cbn in *.
        constructor; cbn; try assumption; try reflexivity.
        repeat split; try assumption. now left.
  - (* the send returns *)
    cbn [fst snd]. destruct Hw as (Hne & Hdo & Hde & Hr & ->).
    apply invariant_of_inv with p out err WatcherDone.
    destruct s; cbn in *.
    constructor; cbn; try assumption; try reflexivity.
    repeat split; try assumption. right. now exists sent0.
  - cbn [fst snd]. apply invariant_of_inv with p out err WatcherDone.
    destruct s; cbn in *. now constructor.
  - cbn [fst snd]. apply invariant_of_inv with p out err (WatcherFailed e).
    destruct s; cbn in *. now constructor.
Qed.

Lemma pump_cancelled_ok (t : pump) : pump_ok t -> pump_ok (pump_cancelled t).
Proof.
  unfold pump_cancelled, pump_ok. destruct (at_pc t) eqn:E; cbn; rewrite ?E; auto.
Qed.

Lemma pump_cancelled_done (t : pump) :
  pump_done t -> pump_done (pump_cancelled t).
Proof.
  unfold pump_cancelled, pump_done. intros E. now rewrite E.
Qed.

(** Every move keeps the invariant. *)
Lemma invariant_exec (child : Z) (l : label) (s : session) :
  invariant child s -> invariant child (exec l s).
Proof.
  intros (p & out & err & pc & Hinv).
  pose proof Hinv as [Hp Ho He Hx Hpid Hc Hoo Heo Hw].
  assert (Hsame : invariant child s) by now exists p, out, err, pc.
  destruct l as [t data|t|status| | |t|t e|t]; unfold exec.
  - (* Feed *)
    destruct t; [rewrite Ho|rewrite He]; cbn [option_map];
      eapply invariant_of_inv;
      [apply (inv_stdout_moves Hinv)|apply (inv_stderr_moves Hinv)]; auto.
  - (* FeedEof *)
    destruct t; [rewrite Ho|rewrite He]; cbn [option_map];
      eapply invariant_of_inv;
      [apply (inv_stdout_moves Hinv)|apply (inv_stderr_moves Hinv)]; auto.
  - (* ChildExits *)
    rewrite Hp. cbn [option_map]. eapply invariant_of_inv.
    apply (inv_process_moves Hinv).
    + now apply child_exits_set.
    + apply child_exits_pid.
    + now apply child_exits_consistent.
  - (* ClientConnects *)
    destruct (client_state s); [|assumption..].
    eapply invariant_of_inv. apply (inv_client Hinv).
  - (* ClientDisconnects *)
    eapply invariant_of_inv. apply (inv_client Hinv).
  - (* Resume *)
    destruct t.
    + rewrite Ho. destruct (_stdout_pipe out s) as [out' s'] eqn:E.
      apply stdout_pipe_effect in E.
      destruct (@pump_effect_inv_stdout _ _ _ _ _ _ _ _ Hinv E) as [p' Hinv'].
      eapply invariant_of_inv. apply (inv_stdout_moves Hinv').
      * now apply (@pump_effect_ok _ _ _ _ E).
      * now apply (@pump_effect_done _ _ _ _ E).
    + rewrite He. destruct (_stderr_pipe err s) as [err' s'] eqn:E.
      apply stderr_pipe_effect in E.
      destruct (@pump_effect_inv_stderr _ _ _ _ _ _ _ _ Hinv E) as [p' Hinv'].
      eapply invariant_of_inv. apply (inv_stderr_moves Hinv').
      * now apply (@pump_effect_ok _ _ _ _ E).
      * now apply (@pump_effect_done _ _ _ _ E).
    + rewrite Hx. pose proof (inv_exit_resumed Hinv) as H.
      now destruct (_exit pc s).
  - (* SendRaises *)
    destruct t.
    + rewrite Ho. unfold pump_send_raises. destruct (at_pc out) eqn:E;
        try (eapply invariant_of_inv; apply (inv_stdout_moves Hinv);
             now auto).
      eapply invariant_of_inv. apply (inv_stdout_moves (inv_print Hinv e)).
      * exact I.
      * unfold pump_done. congruence.
    + rewrite He. unfold pump_send_raises. destruct (at_pc err) eqn:E;
        try (eapply invariant_of_inv; apply (inv_stderr_moves Hinv);
             now auto).
      eapply invariant_of_inv. apply (inv_stderr_moves (inv_print Hinv e)).
      * exact I.
      * unfold pump_done. congruence.
    + rewrite Hx. cbn [option_map]. unfold set_exit_task.
      eapply invariant_of_inv. apply (inv_watcher_moves Hinv).
      destruct pc; cbn in *; tauto.
  - (* Cancel *)
    destruct t; [rewrite Ho|rewrite He]; cbn [option_map];
      eapply invariant_of_inv;
      [apply (inv_stdout_moves Hinv)|apply (inv_stderr_moves Hinv)];
      auto using pump_cancelled_ok, pump_cancelled_done.
Qed.

Lemma invariant_started (module : string) (client : WebSocketState)
  (child : Z) : invariant child (started module client child).
Proof.
  eexists _, fresh_pump, fresh_pump, Polling.
  constructor; cbn; try reflexivity; try exact I.
  - unfold consistent. cbn. discriminate.
  - constructor.
Qed.

Lemma invariant_run (child : Z) (tr : list label) (s : session) :
  invariant child s -> invariant child (run tr s).
Proof.
  revert s. induction tr as [|l tr IH]; intros s H; cbn.
  - assumption.
  - apply IH. now apply invariant_exec.
Qed.

(** ** The EXIT event *)




Example scenario_events :
  sent (run scenario (started "app" CONNECTED 7))
  = [STDOUT 7 (text "a" ++ [10%N]) false; STDERR 7 (text "b" ++ [10%N]);
     EXIT 7 (Some 0%Z)].
Proof. reflexivity. Qed.

(** ** [await_end] *)


Example await_end_scenario :
  await_end (run scenario (started "app" CONNECTED 7)) = Return (Some 0%Z).
Proof. reflexivity. Qed.

(** The other scenario of the specification: the client leaves while the
    child runs; the child is killed, and no [EXIT] is sent. *)
Example scenario_disconnect :
  let s := run [ClientDisconnects; Resume ExitTask; ChildExits (-9);
                FeedEof Stdout; FeedEof Stderr; Resume StdoutPipe;
                Resume StderrPipe; Resume ExitTask; Resume ExitTask]
               (started "app" CONNECTED 7) in
  option_map sigkill (_process s) = Some true
  /\ sent s = []
  /\ await_end s = Return (Some (-9)%Z).
Proof. cbv zeta. repeat split; reflexivity. Qed.

Example await_end_waits :
  await_end (started "app" CONNECTED 7) = Pending.
Proof. reflexivity. Qed.

(** ** [start] and the launch of the child *)

(** C9.  Every child that [start] spawns is launched as [python3] with the
    option [-Xfrozen_modules=off], running the wrapper module with the
    session's module name as its one argument, with pipes on its three
    streams, in text mode and without buffering. *)
Theorem child_launch_contract (s : session) (child : Z) :
  exists p,
    _process (snd (start (Spawned child) s)) = Some p
    /\ pid p = child
    /\ command_line (spawned_with p)
       = Some ("python3", ["-Xfrozen_modules=off"], "server.wrappers.module",
               [_module s])%string
    /\ stdin_from (spawned_with p) = PIPE
    /\ stdout_to (spawned_with p) = PIPE
    /\ stderr_to (spawned_with p) = PIPE
    /\ text_mode (spawned_with p) = true
    /\ bufsize (spawned_with p) = 0%Z.
Proof.
  eexists. split; [reflexivity|]. cbn. repeat split; reflexivity.
Qed.



(** ** Errors inside the pumps *)

(** C2, as the specification words it: after the malformed length field the
    output pump has printed the [ValueError] and is back at its read, not
    over, and it goes on to relay the next line. *)
Lemma pump_goes_on_after_malformed_length :
  let s := run [Feed Stdout malformed_then_line; Resume StdoutPipe]
               (started "app" CONNECTED 7) in
  printed s = [ValueError]
  /\ option_map at_pc (_stdout_pipe_task s) = Some (Reading AtReadline)
  /\ option_map at_pc (_stdout_pipe_task s) <> Some PumpDone
  /\ sent (run [Resume StdoutPipe; Resume StdoutPipe] s)
     = [STDOUT 7 (text "ok" ++ [10%N]) false].
Proof. cbv zeta. split; [reflexivity|]. split; [reflexivity|].
  split; [discriminate|reflexivity]. Qed.

(** C2, amended.  An exception raised by the read of a pump (the reader's
    [ValueError], a [UnicodeDecodeError], the [ValueError] of a malformed
    length) or by its [send_text] is printed, and the pump is back at the
    head of its loop, at the next read: the loop does not end.  The other
    pump, the watcher, the process and the messages sent are as before.  In
    no run does a pump task end with an exception. *)
Theorem pump_errors_are_printed (s : session) (t : pump) (e : exn)
  (module : string) (client : WebSocketState) (child : Z) (tr : list label) :
  (_stdout_pipe_task s = Some t ->
     (forall pc r, at_pc t = Reading pc ->
        _read_stdout pc (reader t) = (Raised e, r) ->
        exec (Resume StdoutPipe) s
        = set_stdout_pipe_task (Some (mkPump r (Reading AtReadline)))
                               (print e s))
     /\ (forall ev, at_pc t = Sending ev ->
           exec (SendRaises StdoutPipe e) s
           = set_stdout_pipe_task
               (Some (mkPump (reader t) (Reading AtReadline))) (print e s)))
  /\ (_stderr_pipe_task s = Some t ->
        (forall pc r, at_pc t = Reading pc ->
           readline (reader t) = (Raise e, r)
           \/ (exists line, readline (reader t) = (Return line, r)
                            /\ decode line = None
                            /\ e = UnicodeDecodeError) ->
           exec (Resume StderrPipe) s
           = set_stderr_pipe_task (Some (mkPump r (Reading AtReadline)))
                                  (print e s))
        /\ (forall ev, at_pc t = Sending ev ->
              exec (SendRaises StderrPipe e) s
              = set_stderr_pipe_task
                  (Some (mkPump (reader t) (Reading AtReadline)))
                  (print e s)))
  /\ (forall out err failure,
        _stdout_pipe_task (run tr (started module client child)) = Some out ->
        _stderr_pipe_task (run tr (started module client child)) = Some err ->
        at_pc out <> PumpFailed failure /\ at_pc err <> PumpFailed failure).
Proof.
  split; [|split].
  - intros Ht. split.
    + intros pc r Hpc Hr. unfold exec. rewrite Ht. unfold _stdout_pipe.
      now rewrite Hpc, Hr.
    + intros ev Hpc. unfold exec. rewrite Ht. unfold pump_send_raises.
      now rewrite Hpc.
  - intros Ht. split.
    + intros pc r Hpc [Hr|(line & Hr & Hd & ->)]; unfold exec; rewrite Ht;
        unfold _stderr_pipe; rewrite Hpc, Hr; [reflexivity|].
      now rewrite Hd.
    + intros ev Hpc. unfold exec. rewrite Ht. unfold pump_send_raises.
      now rewrite Hpc.
  - intros out err failure Ho He.
    destruct (invariant_run tr (invariant_started module client child))
      as (p & out' & err' & pc & [_ Ho' He' _ _ _ Hoo Heo _]).
    rewrite Ho in Ho'. rewrite He in He'.
    inversion Ho'; inversion He'; subst out' err'.
    unfold pump_ok in Hoo, Heo.
    split; intros E; [rewrite E in Hoo|rewrite E in Heo]; assumption.
Qed.

Lemma pump_errors_are_printed_witness :
  let s := run [Feed Stdout malformed_then_line]
               (started "app" CONNECTED 7) in
  exec (Resume StdoutPipe) s
  = set_stdout_pipe_task
      (Some (mkPump (mkReader (bytes_of "ok" ++ [newline]) false)
                    (Reading AtReadline)))
      (print ValueError s).
Proof.
  cbv zeta.
  refine (proj1 (proj1
    (@pump_errors_are_printed
       (run [Feed Stdout malformed_then_line] (started "app" CONNECTED 7))
       (mkPump (mkReader malformed_then_line false) (Reading AtReadline))
       ValueError "app" CONNECTED 7%Z []) _) AtReadline _ _ _);
    reflexivity.
Defined.

(** ** The watcher's own send *)

(** C3.  Nothing in [_exit] catches an exception of its [send_text]: the
    task of the watcher ends with it, and [await_end] raises it. *)
Theorem exit_send_failure_reaches_await_end (s : session)
  (ev : WebSocketEvent) (e : exn) :
  _process s <> None ->
  _exit_task s = Some (SendingExit ev) ->
  _exit_task (exec (SendRaises ExitTask e) s) = Some (WatcherFailed e)
  /\ await_end (exec (SendRaises ExitTask e) s) = Raise e
  /\ sent (exec (SendRaises ExitTask e) s) = sent s.
Proof.
  intros Hp Hx. unfold await_end, exec. rewrite Hx. cbn.
  destruct (_process s); [auto|congruence].
Qed.

Lemma exit_send_failure_reaches_await_end_witness :
  let s := run (removelast exit_send_fails) (started "app" CONNECTED 7) in
  _exit_task s = Some (SendingExit (EXIT 7 (Some 0%Z)))
  /\ await_end (run exit_send_fails (started "app" CONNECTED 7))
     = Raise (TransportError 0)
  /\ sent (run exit_send_fails (started "app" CONNECTED 7)) = [].
Proof.
  cbv zeta. split; [reflexivity|].
  pose proof (@exit_send_failure_reaches_await_end
    (run (removelast exit_send_fails) (started "app" CONNECTED 7))
    (EXIT 7 (Some 0%Z)) (TransportError 0)) as H.
  split; [apply H|apply H]; first [discriminate|reflexivity].
Defined.

(** With the client gone when [gather] returns, the watcher sends nothing
    and returns. *)
Lemma exit_skipped_when_disconnected (s : session) (out err : pump) :
  _stdout_pipe_task s = Some out -> _stderr_pipe_task s = Some err ->
  at_pc out = PumpDone -> at_pc err = PumpDone ->
  _exit_task s = Some Gathering -> client_connected s = false ->
  exec (Resume ExitTask) s = set_exit_task (Some WatcherDone) s.
Proof.
  intros Ho He Hdo Hde Hx Hc. unfold exec. rewrite Hx. cbn [_exit].
  rewrite Ho, He. unfold gather. now rewrite Hdo, Hde, Hc.
Qed.

(** ** The client goes away *)

Lemma Permutation_swap_front (A : Type) (X O W : list A) :
  Permutation (X ++ O ++ W) (O ++ X ++ W).
Proof. rewrite !app_assoc. apply Permutation_app_tail, Permutation_app_comm. Qed.

Lemma quiet_stdout (s s' : session) (landed dropped : list WebSocketEvent) :
  client_connected s' = false -> sent s' = sent s ++ landed ->
  Permutation (landed ++ dropped ++ pump_in_flight (_stdout_pipe_task s'))
              (pump_in_flight (_stdout_pipe_task s)) ->
  pump_in_flight (_stderr_pipe_task s') = pump_in_flight (_stderr_pipe_task s) ->
  watcher_in_flight (_exit_task s') = watcher_in_flight (_exit_task s) ->
  quiet s s'.
Proof.
  intros Hc Hs Hp He Hx. split; [assumption|]. exists landed, dropped.
  split; [assumption|]. unfold in_flight. rewrite He, Hx.
  rewrite !app_assoc. do 2 apply Permutation_app_tail.
  now rewrite <- app_assoc.
Qed.

Lemma quiet_stderr (s s' : session) (landed dropped : list WebSocketEvent) :
  client_connected s' = false -> sent s' = sent s ++ landed ->
  Permutation (landed ++ dropped ++ pump_in_flight (_stderr_pipe_task s'))
              (pump_in_flight (_stderr_pipe_task s)) ->
  pump_in_flight (_stdout_pipe_task s') = pump_in_flight (_stdout_pipe_task s) ->
  watcher_in_flight (_exit_task s') = watcher_in_flight (_exit_task s) ->
  quiet s s'.
Proof.
  intros Hc Hs Hp Ho Hx. split; [assumption|]. exists landed, dropped.
  split; [assumption|]. unfold in_flight. rewrite Ho, Hx.
  set (O := pump_in_flight (_stdout_pipe_task s)).
  set (W := watcher_in_flight (_exit_task s)).
  rewrite <- Hp.
  set (E := pump_in_flight (_stderr_pipe_task s')).
  repeat rewrite <- app_assoc.
  rewrite (app_assoc landed dropped (O ++ E ++ W)).
  rewrite (app_assoc landed dropped (E ++ W)).
  apply Permutation_swap_front.
Qed.

Lemma quiet_watcher (s s' : session) (landed dropped : list WebSocketEvent) :
  client_connected s' = false -> sent s' = sent s ++ landed ->
  Permutation (landed ++ dropped ++ watcher_in_flight (_exit_task s'))
              (watcher_in_flight (_exit_task s)) ->
  pump_in_flight (_stdout_pipe_task s') = pump_in_flight (_stdout_pipe_task s) ->
  pump_in_flight (_stderr_pipe_task s') = pump_in_flight (_stderr_pipe_task s) ->
  quiet s s'.
Proof.
  intros Hc Hs Hp Ho He. split; [assumption|]. exists landed, dropped.
  split; [assumption|]. unfold in_flight. rewrite Ho, He.
  set (O := pump_in_flight (_stdout_pipe_task s)).
  set (E := pump_in_flight (_stderr_pipe_task s)).
  rewrite <- Hp.
  set (W := watcher_in_flight (_exit_task s')).
  repeat rewrite <- app_assoc.
  rewrite (app_assoc landed dropped (O ++ E ++ W)).
  rewrite (app_assoc landed dropped W).
  rewrite (app_assoc O E W), (app_assoc O E ((landed ++ dropped) ++ W)).
  apply Permutation_swap_front.
Qed.

Lemma quiet_nothing (s s' : session) :
  client_connected s' = false -> sent s' = sent s ->
  pump_in_flight (_stdout_pipe_task s') = pump_in_flight (_stdout_pipe_task s) ->
  pump_in_flight (_stderr_pipe_task s') = pump_in_flight (_stderr_pipe_task s) ->
  watcher_in_flight (_exit_task s') = watcher_in_flight (_exit_task s) ->
  quiet s s'.
Proof.
  intros Hc Hs Ho He Hx.
  apply quiet_stdout with (landed := []) (dropped := []); try assumption.
  - now rewrite Hs, app_nil_r.
  - now rewrite Ho.
Qed.

(** What a pump's resumption leaves of the session when the client is
    away: nothing is entered, and only an event in flight can land. *)
Lemma pump_effect_quiet (t : pump) (s : session) (t' : pump) (s' : session) :
  pump_effect t s t' s' -> client_connected s = false ->
  client_connected s' = false
  /\ _stdout_pipe_task s' = _stdout_pipe_task s
  /\ _stderr_pipe_task s' = _stderr_pipe_task s
  /\ _exit_task s' = _exit_task s
  /\ exists landed,
       sent s' = sent s ++ landed
       /\ landed ++ pump_in_flight (Some t') = pump_in_flight (Some t).
Proof.
  unfold pump_effect. intros H Hc. cbn [pump_in_flight].
  destruct (at_pc t) eqn:E.
  - destruct H as [Hs Ht].
    assert (Hnot : match at_pc t' with Sending _ => [] | _ => [] end
                   = match at_pc t' with Sending ev => [ev] | _ => [] end).
    { destruct (at_pc t'); try reflexivity. destruct Ht. congruence. }
    rewrite <- Hnot.
    destruct Hs as [->|[->|[e ->]]]; cbn; repeat split; try assumption;
      exists []; (split; [now rewrite app_nil_r|now destruct (at_pc t')]).
  - destruct H as [-> Ht]. rewrite Ht. cbn. repeat split; try assumption.
    now exists [ev].
  - destruct H as [-> ->]. rewrite E. repeat split; try assumption.
    exists []. now rewrite app_nil_r.
  - destruct H as [-> ->]. rewrite E. repeat split; try assumption.
    exists []. now rewrite app_nil_r.
Qed.

Lemma exit_quiet (pc : watcher_pc) (s : session) :
  client_connected s = false ->
  client_connected (snd (_exit pc s)) = false
  /\ _stdout_pipe_task (snd (_exit pc s)) = _stdout_pipe_task s
  /\ _stderr_pipe_task (snd (_exit pc s)) = _stderr_pipe_task s
  /\ exists landed,
       sent (snd (_exit pc s)) = sent s ++ landed
       /\ landed ++ watcher_in_flight (Some (fst (_exit pc s)))
          = watcher_in_flight (Some pc).
Proof.
  intros Hc.
  assert (Hnil : forall l : list WebSocketEvent,
            exists landed, l = l ++ landed /\ landed ++ [] = [])
    by (intros l; exists []; now rewrite app_nil_r).
  destruct pc; cbn [_exit].
  - destruct (_process s) as [p|] eqn:Hp.
    + rewrite Hc. unfold subprocess_exited. cbn [_process set_process].
      destruct (returncode (poll (kill p))); cbn; auto 7.
    + cbn. auto 7.
  - destruct (_stdout_pipe_task s) as [out|] eqn:Ho,
      (_stderr_pipe_task s) as [err|] eqn:He; try (cbn; now auto 7).
    destruct (gather out err) as [|e|u]; try (cbn; now auto 7).
    rewrite Hc. cbn. auto 7.
  - cbn. repeat split; try assumption. now exists [ev].
  - cbn. auto 7.
  - cbn. auto 7.
Qed.

(** Every move but the client's arrival is quiet when the client is away. *)
Lemma quiet_exec (l : label) (s : session) :
  l <> ClientConnects -> client_connected s = false -> quiet s (exec l s).
Proof.
  intros Hl Hc.
  destruct l as [t data|t|status| | |t|t e|t]; unfold exec.
  - destruct t; apply quiet_nothing; try reflexivity; try assumption;
      cbn; [destruct (_stdout_pipe_task s)|destruct (_stderr_pipe_task s)];
      reflexivity.
  - destruct t; apply quiet_nothing; try reflexivity; try assumption;
      cbn; [destruct (_stdout_pipe_task s)|destruct (_stderr_pipe_task s)];
      reflexivity.
  - apply quiet_nothing; try reflexivity; assumption.
  - congruence.
  - apply quiet_nothing; reflexivity.
  - destruct t.
    + destruct (_stdout_pipe_task s) as [t|] eqn:Ht;
        [|apply quiet_nothing; cbn; rewrite ?Ht; try assumption; reflexivity].
      destruct (_stdout_pipe t s) as [t' s'] eqn:E.
      apply stdout_pipe_effect in E.
      destruct (@pump_effect_quiet _ _ _ _ E Hc)
        as (Hc' & Ho & He & Hx & landed & Hs & Hf).
      apply quiet_stdout with (landed := landed) (dropped := []);
        cbn [set_stdout_pipe_task client_connected client_state sent
             _stdout_pipe_task _stderr_pipe_task _exit_task app];
        try assumption; try (f_equal; assumption).
      rewrite Ht, Hf. reflexivity.
    + destruct (_stderr_pipe_task s) as [t|] eqn:Ht;
        [|apply quiet_nothing; cbn; rewrite ?Ht; try assumption; reflexivity].
      destruct (_stderr_pipe t s) as [t' s'] eqn:E.
      apply stderr_pipe_effect in E.
      destruct (@pump_effect_quiet _ _ _ _ E Hc)
        as (Hc' & Ho & He & Hx & landed & Hs & Hf).
      apply quiet_stderr with (landed := landed) (dropped := []);
        cbn [set_stderr_pipe_task client_connected client_state sent
             _stdout_pipe_task _stderr_pipe_task _exit_task app];
        try assumption; try (f_equal; assumption).
      rewrite Ht, Hf. reflexivity.
    + destruct (_exit_task s) as [pc|] eqn:Ht;
        [|apply quiet_nothing; cbn; rewrite ?Ht; try assumption; reflexivity].
      destruct (@exit_quiet pc _ Hc) as (Hc' & Ho & He & landed & Hs & Hf).
      destruct (_exit pc s) as [pc' s']. cbn [fst snd] in *.
      apply quiet_watcher with (landed := landed) (dropped := []);
        cbn [set_exit_task client_connected client_state sent
             _stdout_pipe_task _stderr_pipe_task _exit_task app];
        try assumption; try (f_equal; assumption).
      rewrite Ht, Hf. reflexivity.
  - destruct t.
    + destruct (_stdout_pipe_task s) as [t|] eqn:Ht;
        [|apply quiet_nothing; cbn; rewrite ?Ht; try assumption; reflexivity].
      unfold pump_send_raises. destruct (at_pc t) eqn:E;
        try (apply quiet_nothing; cbn; rewrite ?Ht; cbn; rewrite ?E;
             try assumption; reflexivity).
      apply quiet_stdout with (landed := []) (dropped := [ev]);
        cbn; try assumption; try reflexivity.
      * now rewrite app_nil_r.
      * rewrite Ht. cbn. now rewrite E.
    + destruct (_stderr_pipe_task s) as [t|] eqn:Ht;
        [|apply quiet_nothing; cbn; rewrite ?Ht; try assumption; reflexivity].
      unfold pump_send_raises. destruct (at_pc t) eqn:E;
        try (apply quiet_nothing; cbn; rewrite ?Ht; cbn; rewrite ?E;
             try assumption; reflexivity).
      apply quiet_stderr with (landed := []) (dropped := [ev]);
        cbn; try assumption; try reflexivity.
      * now rewrite app_nil_r.
      * rewrite Ht. cbn. now rewrite E.
    + destruct (_exit_task s) as [pc|] eqn:Ht;
        [|apply quiet_nothing; cbn; rewrite ?Ht; try assumption; reflexivity].
      destruct pc;
        try (apply quiet_nothing; cbn; rewrite ?Ht; try assumption;
             reflexivity).
      apply quiet_watcher with (landed := []) (dropped := [ev]);
        cbn; try assumption; try reflexivity.
      * now rewrite app_nil_r.
      * now rewrite Ht.
  - destruct t.
    + destruct (_stdout_pipe_task s) as [t|] eqn:Ht;
        [|apply quiet_nothing; cbn; rewrite ?Ht; try assumption; reflexivity].
      unfold pump_cancelled. cbn [option_map]. destruct (at_pc t) eqn:E;
        try (apply quiet_nothing; cbn; rewrite ?Ht; cbn; rewrite ?E;
             try assumption; reflexivity).
      apply quiet_stdout with (landed := []) (dropped := [ev]);
        cbn; try assumption; try reflexivity.
      * now rewrite app_nil_r.
      * rewrite Ht. cbn. now rewrite E.
    + destruct (_stderr_pipe_task s) as [t|] eqn:Ht;
        [|apply quiet_nothing; cbn; rewrite ?Ht; try assumption; reflexivity].
      unfold pump_cancelled. cbn [option_map]. destruct (at_pc t) eqn:E;
        try (apply quiet_nothing; cbn; rewrite ?Ht; cbn; rewrite ?E;
             try assumption; reflexivity).
      apply quiet_stderr with (landed := []) (dropped := [ev]);
        cbn; try assumption; try reflexivity.
      * now rewrite app_nil_r.
      * rewrite Ht. cbn. now rewrite E.
Qed.

Lemma quiet_refl (s : session) : client_connected s = false -> quiet s s.
Proof. intros Hc. apply quiet_nothing; auto. Qed.

Lemma quiet_trans (a b c : session) : quiet a b -> quiet b c -> quiet a c.
Proof.
  intros [_ (l1 & d1 & Hs1 & P1)] [Hc (l2 & d2 & Hs2 & P2)].
  split; [assumption|]. exists (l1 ++ l2), (d1 ++ d2). split.
  - now rewrite Hs2, Hs1, app_assoc.
  - rewrite <- P1, <- P2. repeat rewrite <- app_assoc.
    apply Permutation_app_head. apply Permutation_swap_front.
Qed.

Lemma quiet_run (tr : list label) (s : session) :
  ~ In ClientConnects tr -> client_connected s = false -> quiet s (run tr s).
Proof.
  revert s. induction tr as [|l tr IH]; intros s Hn Hc; cbn.
  - now apply quiet_refl.
  - assert (Hq : quiet s (exec l s)).
    { apply quiet_exec; [|assumption]. intros ->. apply Hn. now left. }
    apply quiet_trans with (exec l s); [assumption|].
    apply IH; [|apply Hq]. intros H. apply Hn. now right.
Qed.

(** C6.  Take a started session whose client is not connected, and let
    the client not arrive afterwards.
    - If the child has not ended, the watcher is at the head of its loop,
      and its next resumption (the end of its one-second sleep) sends the
      child SIGKILL, sends no message and leaves the watcher in its loop.
    - Whatever happens next, the messages are those already sent followed
      only by events that were inside [send_text] when the client went
      away, each at most once: no pump starts a new send. *)
Theorem kill_on_disconnect (module : string) (client : WebSocketState)
  (child : Z) (before after : list label) :
  let s := run before (started module client child) in
  client_connected s = false ->
  ~ In ClientConnects after ->
  (forall p, _process s = Some p -> exit_status p = None ->
     _exit_task s = Some Polling
     /\ _process (exec (Resume ExitTask) s)
        = Some (mkPopen (spawned_with p) (pid p) None None true)
     /\ _exit_task (exec (Resume ExitTask) s) = Some Polling
     /\ sent (exec (Resume ExitTask) s) = sent s)
  /\ client_connected (run after s) = false
  /\ exists landed lost,
       sent (run after s) = sent s ++ landed
       /\ Permutation (landed ++ lost) (in_flight s).
Proof.
  intros s Hc Hn. split; [|split].
  - intros p Hp Hs.
    destruct (invariant_run before (invariant_started module client child))
      as (p' & out & err & pc & [Hp' Ho He Hx Hpid Hcons Hoo Heo Hw]).
    fold s in Hp', Ho, He, Hx, Hw.
    rewrite Hp in Hp'. inversion Hp'; subst p'. clear Hp'.
    assert (Hr : returncode p = None).
    { destruct (returncode p) as [rc|] eqn:E; [|reflexivity].
      apply Hcons in E. congruence. }
    assert (Hpc : pc = Polling).
    { destruct pc; cbn in Hw; try reflexivity; exfalso; tauto. }
    subst pc. split; [assumption|].
    unfold exec. rewrite Hx. cbn [_exit]. rewrite Hp, Hc.
    unfold subprocess_exited. cbn [_process set_process].
    unfold kill. rewrite (poll_unset _ Hr), Hs. cbn.
    auto.
  - apply (@quiet_run after s Hn Hc).
  - destruct (@quiet_run after s Hn Hc) as [_ (landed & dropped & Hs & P)].
    exists landed, (dropped ++ in_flight (run after s)). auto.
Qed.

(** The client leaves while ["a\n"] is inside [send_text]: the watcher kills
    the child at its next poll, the event in flight lands, and the line that
    arrives afterwards is not sent. *)
Lemma kill_on_disconnect_witness :
  let before := [Feed Stdout (bytes_of "a" ++ [newline]);
                 Resume StdoutPipe; ClientDisconnects] in
  let after := [Resume ExitTask; Resume StdoutPipe;
                Feed Stdout (bytes_of "b" ++ [newline]);
                Resume StdoutPipe; Resume StdoutPipe] in
  let s := run before (started "app" CONNECTED 7) in
  in_flight s = [STDOUT 7 (text "a" ++ [10%N]) false]
  /\ option_map sigkill (_process (exec (Resume ExitTask) s)) = Some true
  /\ sent (run after s) = [STDOUT 7 (text "a" ++ [10%N]) false]
  /\ option_map at_pc (_stdout_pipe_task (run after s)) = Some PumpDone
  /\ exists landed lost,
       sent (run after s) = sent s ++ landed
       /\ Permutation (landed ++ lost) (in_flight s).
Proof.
  cbv zeta.
  split; [reflexivity|]. split; [reflexivity|]. split; [reflexivity|].
  split; [reflexivity|].
  refine (proj2 (proj2 (@kill_on_disconnect "app" CONNECTED 7%Z
    [Feed Stdout (bytes_of "a" ++ [newline]);
     Resume StdoutPipe; ClientDisconnects]
    [Resume ExitTask; Resume StdoutPipe;
     Feed Stdout (bytes_of "b" ++ [newline]);
     Resume StdoutPipe; Resume StdoutPipe] _ _))).
  - reflexivity.
  - cbn. intuition discriminate.
Defined.

(** * Further properties *)

(** ** Decimal numerals and [int] *)

Lemma digit_byte_code (d : N) :
  (d < 10)%N -> Byte.to_N (digit_byte d) = (48 + d)%N.
Proof.
  intros H.
  assert (E : (d = 0 \/ d = 1 \/ d = 2 \/ d = 3 \/ d = 4 \/ d = 5 \/ d = 6
               \/ d = 7 \/ d = 8 \/ d = 9)%N) by lia.
  repeat (destruct E as [->|E]; [reflexivity|]). now subst d.
Qed.

Lemma digit_byte_digit (d : N) : (d < 10)%N -> ascii_digit (digit_byte d).
Proof.
  intros H. unfold ascii_digit, digit, is_digit. rewrite (digit_byte_code H).
  apply andb_true_intro. split; apply N.leb_le; lia.
Qed.

Lemma decimal_aux_digits (fuel : nat) (n : N) (acc : bytes) :
  Forall ascii_digit acc -> Forall ascii_digit (decimal_aux fuel n acc).
Proof.
  revert n acc. induction fuel as [|fuel IH]; intros n acc Hacc; cbn.
  - assumption.
  - assert (Hd : ascii_digit (digit_byte (n mod 10)))
      by (apply digit_byte_digit, N.mod_lt; lia).
    destruct (n / 10 =? 0)%N; [now constructor|].
    apply IH. now constructor.
Qed.

Lemma decimal_aux_length (fuel : nat) (n : N) (acc : bytes) :
  (List.length acc < List.length (decimal_aux (S fuel) n acc)
   <= S fuel + List.length acc)%nat.
Proof.
  revert n acc. induction fuel as [|fuel IH]; intros n acc.
  - cbn. destruct (n / 10 =? 0)%N; cbn; lia.
  - cbn [decimal_aux]. destruct (n / 10 =? 0)%N; [cbn; lia|].
    specialize (IH (n / 10)%N (digit_byte (n mod 10) :: acc)).
    cbn [decimal_aux List.length] in IH |- *. lia.
Qed.

Lemma decimal_value_step (acc : list N) (v : Z) (d : N) :
  fold_left (fun a c => (a * 10 + Z.of_N (c - 48))%Z) (d :: acc) v
  = fold_left (fun a c => (a * 10 + Z.of_N (c - 48))%Z) acc
              (v * 10 + Z.of_N (d - 48))%Z.
Proof. reflexivity. Qed.

(** The numeral read back is the number. *)
Lemma decimal_aux_value (fuel : nat) (n : N) (acc : bytes) :
  (n < 2 ^ N.of_nat fuel)%N ->
  fold_left (fun a c => (a * 10 + Z.of_N (c - 48))%Z)
            (map Byte.to_N (decimal_aux fuel n acc)) 0%Z
  = fold_left (fun a c => (a * 10 + Z.of_N (c - 48))%Z)
              (map Byte.to_N acc) (Z.of_N n).
Proof.
  revert n acc. induction fuel as [|fuel IH]; intros n acc Hn.
  - cbn in Hn. assert (n = 0%N) by lia. subst n. reflexivity.
  - cbn [decimal_aux].
    assert (Hm : (n mod 10 < 10)%N) by (apply N.mod_lt; lia).
    assert (Hdiv : n = (10 * (n / 10) + n mod 10)%N)
      by (apply N.div_mod; lia).
    destruct (N.eqb_spec (n / 10) 0) as [E|E].
    + cbn [map]. rewrite decimal_value_step, (digit_byte_code Hm).
      f_equal. rewrite E in Hdiv. lia.
    + rewrite IH.
      * cbn [map]. rewrite decimal_value_step, (digit_byte_code Hm).
        f_equal. clear E IH Hn.
        generalize dependent (n / 10)%N. generalize dependent (n mod 10)%N.
        intros r Hr q Hq. lia.
      * rewrite Nat2N.inj_succ, N.pow_succ_r' in Hn.
        apply N.Div0.div_lt_upper_bound. lia.
Qed.

Lemma decimal_value_decimal (n : N) :
  decimal_value (map Byte.to_N (decimal n)) = Z.of_N n.
Proof.
  unfold decimal_value, decimal. rewrite decimal_aux_value; [reflexivity|].
  rewrite Nat2N.inj_succ, N2Nat.id.
  destruct n as [|p]; [reflexivity|].
  apply N.log2_spec. lia.
Qed.

Lemma decimal_digits (n : N) : Forall ascii_digit (decimal n).
Proof. apply decimal_aux_digits. constructor. Qed.

Lemma decimal_length (n : N) :
  (0 < List.length (decimal n) <= S (N.to_nat (N.log2 n)))%nat.
Proof.
  unfold decimal.
  pose proof (decimal_aux_length (N.to_nat (N.log2 n)) n []) as H.
  cbn [List.length] in H. lia.
Qed.

Lemma digit_cases (d : N) :
  digit d ->
  (d = 48 \/ d = 49 \/ d = 50 \/ d = 51 \/ d = 52 \/ d = 53 \/ d = 54
   \/ d = 55 \/ d = 56 \/ d = 57)%N.
Proof.
  unfold digit, is_digit. intros H. apply andb_prop in H.
  destruct H as [H1 H2]. apply N.leb_le in H1. apply N.leb_le in H2. lia.
Qed.

(** Digits and a newline: [int] reads the number. *)
Lemma int_digits (ds : list N) :
  ds <> [] -> Forall digit ds -> (List.length ds <= int_max_str_digits)%nat ->
  int (ds ++ [10%N]) = Some (decimal_value ds).
Proof.
  intros Hne Hd Hlen. unfold int.
  rewrite (transform_digits Hd) by reflexivity.
  destruct ds as [|d ds]; [congruence|].
  assert (Hscan : scan_numeral ((d :: ds) ++ [10%N]) = (d :: ds, [10%N]))
    by (apply (@scan_numeral_digits (d :: ds) 10%N [] Hd); reflexivity).
  assert (Hu : underscores_ok false (d :: ds) = true)
    by (apply underscores_ok_digits; [assumption|discriminate]).
  assert (Hdig : digits_of (d :: ds) = d :: ds)
    by now apply digits_of_digits.
  assert (Hnu : is_underscore d = false)
    by (apply digit_not_underscore; now inversion Hd).
  apply Nat.leb_le in Hlen.
  assert (Hfirst : digit d) by now inversion Hd.
  unfold PyLong_FromString.
  replace (skip_space ((d :: ds) ++ [10%N])) with ((d :: ds) ++ [10%N]).
  - replace (match (d :: ds) ++ [10%N] with
             | 43%N :: r => (false, r)
             | 45%N :: r => (true, r)
             | _ => (false, (d :: ds) ++ [10%N])
             end) with (false, (d :: ds) ++ [10%N]).
    + rewrite Hscan, Hu, Hdig, Hnu, Hlen. reflexivity.
    + destruct (digit_cases Hfirst) as [E|E];
        repeat (destruct E as [E|E]); subst d; reflexivity.
  - destruct (digit_cases Hfirst) as [E|E];
      repeat (destruct E as [E|E]); subst d; reflexivity.
Qed.

Lemma decode_ascii (bs : bytes) :
  Forall (fun b => (Byte.to_N b < 128)%N) bs ->
  decode bs = Some (map Byte.to_N bs).
Proof.
  induction 1 as [|b bs Hb _ IH]; [reflexivity|].
  cbn [decode map]. apply N.ltb_lt in Hb. rewrite Hb, IH. reflexivity.
Qed.

Lemma ascii_digit_ascii (b : byte) : ascii_digit b -> (Byte.to_N b < 128)%N.
Proof.
  intros H. destruct (digit_cases H) as [E|E];
    repeat (destruct E as [E|E]); rewrite E; reflexivity.
Qed.

Lemma ascii_digits_no_newline (bs : bytes) :
  Forall ascii_digit bs -> no_newline bs.
Proof.
  unfold no_newline. intros H Hin. rewrite Forall_forall in H.
  apply H in Hin. discriminate.
Qed.

(** The length field of a frame: its text is read back as the number. *)
Lemma decimal_field (n : N) :
  (N.log2 n < 4300)%N ->
  no_newline (decimal n)
  /\ (size (marker ++ decimal n) <= _limit)%N
  /\ decode (decimal n ++ [newline])
     = Some (map Byte.to_N (decimal n) ++ [10%N])
  /\ int (map Byte.to_N (decimal n) ++ [10%N]) = Some (Z.of_N n).
Proof.
  intros Hn. pose proof (decimal_digits n) as Hd.
  pose proof (decimal_length n) as Hl.
  assert (Hcap : (List.length (decimal n) <= 4300)%nat) by lia.
  split; [now apply ascii_digits_no_newline|]. split; [|split].
  - unfold size, _limit. rewrite length_app. cbn [List.length marker]. lia.
  - rewrite decode_ascii; [now rewrite map_app|].
    apply Forall_app. split.
    + eapply Forall_impl; [|exact Hd]. apply ascii_digit_ascii.
    + repeat constructor.
  - rewrite int_digits.
    + now rewrite decimal_value_decimal.
    + destruct (decimal n); cbn in *; [lia|discriminate].
    + unfold ascii_digit in Hd. now rewrite Forall_map.
    + now rewrite length_map.
Qed.

(** ** Frames of every length *)

Lemma read_stdout_frame_unit (payload rest : bytes) (eof : bool) (t : str) :
  payload <> [] -> (N.log2 (size payload) < 4300)%N ->
  decode payload = Some t ->
  _read_stdout AtReadline (mkReader (frame payload ++ rest) eof)
  = (Returned (t, true), mkReader rest eof).
Proof.
  intros Hp Hn Ht.
  destruct (decimal_field _ Hn) as (Hnl & Hlim & Hdec & Hint).
  unfold frame. 
  replace ((marker ++ decimal (size payload) ++ newline :: payload) ++ rest)
    with (marker ++ decimal (size payload) ++ newline :: payload ++ rest)
    by (now rewrite <- !app_assoc).
  apply read_stdout_prompt
    with (digits := map Byte.to_N (decimal (size payload)) ++ [10%N]);
    try assumption.
  rewrite Hint. unfold size. now rewrite nat_N_Z.
Qed.

(** X1.  The prompt framing round trip: for a payload of any length but
    zero (below the interpreter's cap on numerals), the frame made of the
    marker, the decimal length, a newline and the payload is decoded to
    the payload's text flagged as a prompt, and exactly the frame leaves
    the buffer. *)
Theorem read_stdout_frame (payload rest : bytes) (eof : bool) (t : str) :
  payload <> [] -> (N.log2 (size payload) < 4300)%N ->
  decode payload = Some t ->
  _read_stdout AtReadline (mkReader (frame payload ++ rest) eof)
  = (Returned (t, true), mkReader rest eof).
Proof. exact (@read_stdout_frame_unit payload rest eof t). Qed.

Lemma read_stdout_frame_witness :
  frame (bytes_of "What is your name? ")
  = marker ++ bytes_of "19" ++ newline :: bytes_of "What is your name? "
  /\ _read_stdout AtReadline
       (mkReader (frame (bytes_of "What is your name? ") ++ bytes_of "x") true)
     = (Returned (text "What is your name? ", true),
        mkReader (bytes_of "x") true).
Proof.
  split; [reflexivity|].
  apply (@read_stdout_frame (bytes_of "What is your name? ") (bytes_of "x")
           true (text "What is your name? ")).
  - discriminate.
  - reflexivity.
  - reflexivity.
Defined.

(** ** Relaying a stream of units *)

Lemma decode_nonempty (bs : bytes) (t : str) :
  decode bs = Some t -> bs <> [] -> t <> [].
Proof.
  destruct bs as [|b0 t0]; [congruence|]. intros H _. cbn [decode] in H.
  repeat match type of H with
         | (if ?c then _ else _) = _ => destruct c
         | match ?l with [] => _ | _ :: _ => _ end = _ => destruct l
         end; try discriminate;
    match type of H with
    | option_map _ ?d = _ => destruct d; cbn in H; inversion H; discriminate
    end.
Qed.

Lemma stdout_unit_read (u : bytes) (t : str) (b : bool) (rest : bytes)
  (eof : bool) :
  stdout_unit u t b ->
  _read_stdout AtReadline (mkReader (u ++ rest) eof)
  = (Returned (t, b), mkReader rest eof)
  /\ t <> [].
Proof.
  intros [body t' Hn Hm Hl Hd|payload t' Hp Hcap Hd].
  - split.
    + unfold _read_stdout. rewrite <- app_assoc. cbn [app].
      rewrite readline_line by assumption.
      apply bytes_eqb_neq in Hm. rewrite Hm. unfold return_decoded.
      now rewrite Hd.
    + apply (decode_nonempty Hd). destruct body; discriminate.
  - split.
    + now apply read_stdout_frame_unit.
    + now apply (decode_nonempty Hd).
Qed.

Lemma send_all_sent (evs : list WebSocketEvent) (s : session) :
  send_all evs s
  = mkSession (_module s) (client_state s) (sent s ++ evs) (_process s)
              (_stdout_pipe_task s) (_stderr_pipe_task s) (_exit_task s)
              (printed s).
Proof.
  revert s. induction evs as [|ev evs IH]; intros s; cbn.
  - rewrite app_nil_r. now destruct s.
  - unfold send_all in IH. rewrite IH. cbn. now rewrite <- app_assoc.
Qed.

(** The output pump takes one unit out of its reader and sends it: two
    resumptions, the read and the [send_text]. *)
Lemma stdout_pipe_unit (s : session) (p : Popen) (u : bytes) (t : str)
  (b : bool) (rest : bytes) (eof : bool) :
  stdout_unit u t b ->
  _stdout_pipe_task s
  = Some (mkPump (mkReader (u ++ rest) eof) (Reading AtReadline)) ->
  client_connected s = true -> _process s = Some p ->
  exec (Resume StdoutPipe) (exec (Resume StdoutPipe) s)
  = set_stdout_pipe_task
      (Some (mkPump (mkReader rest eof) (Reading AtReadline)))
      (send_text (STDOUT (pid p) t b) s).
Proof.
  intros Hu Ht Hc Hp.
  destruct (@stdout_unit_read u t b rest eof Hu) as [Hread Hne].
  assert (Hfirst : exec (Resume StdoutPipe) s
    = set_stdout_pipe_task
        (Some (mkPump (mkReader rest eof) (Sending (STDOUT (pid p) t b)))) s).
  { unfold exec. rewrite Ht. unfold _stdout_pipe. cbn [at_pc reader].
    rewrite Hread. unfold relay. destruct t as [|c t]; [congruence|].
    rewrite Hc, Hp. reflexivity. }
  rewrite Hfirst. reflexivity.
Qed.

Lemma stdout_pipe_stream (bs : bytes) (us : list (str * bool)) :
  stdout_stream bs us ->
  forall (s : session) (p : Popen) (rest : bytes) (eof : bool),
    _stdout_pipe_task s
    = Some (mkPump (mkReader (bs ++ rest) eof) (Reading AtReadline)) ->
    client_connected s = true -> _process s = Some p ->
    run (resumed (2 * List.length us) StdoutPipe) s
    = set_stdout_pipe_task
        (Some (mkPump (mkReader rest eof) (Reading AtReadline)))
        (send_all (stdout_events (pid p) us) s).
Proof.
  induction 1 as [|u t b bs us Hu Hs IH]; intros s p rest eof Ht Hc Hp.
  - cbn in Ht |- *. rewrite <- Ht. now destruct s.
  - replace (2 * List.length ((t, b) :: us))%nat
      with (S (S (2 * List.length us))) by (cbn; lia).
    cbn [resumed repeat run fold_left].
    rewrite <- app_assoc in Ht.
    rewrite (@stdout_pipe_unit s p u t b (bs ++ rest) eof Hu Ht Hc Hp).
    fold (run (resumed (2 * List.length us) StdoutPipe)
              (set_stdout_pipe_task
                 (Some (mkPump (mkReader (bs ++ rest) eof) (Reading AtReadline)))
                 (send_text (STDOUT (pid p) t b) s))).
    rewrite (IH _ p rest eof); try reflexivity; try assumption.
    rewrite !send_all_sent. cbn. now rewrite <- app_assoc.
Qed.

(** The error pump does the same with a line. *)
Lemma stderr_pipe_line (s : session) (p : Popen) (body : bytes) (t : str)
  (rest : bytes) (eof : bool) :
  no_newline body -> (size body <= _limit)%N ->
  decode (body ++ [newline]) = Some t ->
  _stderr_pipe_task s
  = Some (mkPump (mkReader ((body ++ [newline]) ++ rest) eof)
                 (Reading AtReadline)) ->
  client_connected s = true -> _process s = Some p ->
  exec (Resume StderrPipe) (exec (Resume StderrPipe) s)
  = set_stderr_pipe_task
      (Some (mkPump (mkReader rest eof) (Reading AtReadline)))
      (send_text (STDERR (pid p) t) s).
Proof.
  intros Hn Hl Hd Ht Hc Hp.
  assert (Hne : t <> [])
    by (apply (decode_nonempty Hd); destruct body; discriminate).
  assert (Hfirst : exec (Resume StderrPipe) s
    = set_stderr_pipe_task
        (Some (mkPump (mkReader rest eof) (Sending (STDERR (pid p) t)))) s).
  { unfold exec. rewrite Ht. unfold _stderr_pipe. cbn [at_pc reader].
    rewrite <- app_assoc. cbn [app]. rewrite readline_line by assumption.
    rewrite Hd. unfold relay. destruct t as [|c t]; [congruence|].
    rewrite Hc, Hp. reflexivity. }
  rewrite Hfirst. reflexivity.
Qed.

Lemma stderr_pipe_stream (bs : bytes) (ts : list str) :
  stderr_stream bs ts ->
  forall (s : session) (p : Popen) (rest : bytes) (eof : bool),
    _stderr_pipe_task s
    = Some (mkPump (mkReader (bs ++ rest) eof) (Reading AtReadline)) ->
    client_connected s = true -> _process s = Some p ->
    run (resumed (2 * List.length ts) StderrPipe) s
    = set_stderr_pipe_task
        (Some (mkPump (mkReader rest eof) (Reading AtReadline)))
        (send_all (stderr_events (pid p) ts) s).
Proof.
  induction 1 as [|body t bs ts Hn Hl Hd Hs IH]; intros s p rest eof Ht Hc Hp.
  - cbn in Ht |- *. rewrite <- Ht. now destruct s.
  - replace (2 * List.length (t :: ts))%nat
      with (S (S (2 * List.length ts))) by (cbn; lia).
    cbn [resumed repeat run fold_left].
    rewrite <- app_assoc in Ht.
    rewrite (@stderr_pipe_line s p body t (bs ++ rest) eof Hn Hl Hd Ht Hc Hp).
    fold (run (resumed (2 * List.length ts) StderrPipe)
              (set_stderr_pipe_task
                 (Some (mkPump (mkReader (bs ++ rest) eof) (Reading AtReadline)))
                 (send_text (STDERR (pid p) t) s))).
    rewrite (IH _ p rest eof); try reflexivity; try assumption.
    rewrite !send_all_sent. cbn. now rewrite <- app_assoc.
Qed.


(** X2.  The output pump relays a stream of units in order and whole.
    Whenever it awaits a line with an empty reader, a connected client and a
    process, and the transport feeds it a stream of units (lines and
    prompts in any mix), then after two resumptions per unit each unit has
    been sent as one [STDOUT] event, with the pid of the process, its text
    and its prompt flag, in the order of the stream; nothing is printed and
    the pump is back at its read with an empty reader. *)
Theorem stdout_relayed_in_order (s : session) (p : Popen) (bs : bytes)
  (us : list (str * bool)) :
  stdout_stream bs us ->
  _stdout_pipe_task s = Some (mkPump (mkReader [] false) (Reading AtReadline)) ->
  client_connected s = true -> _process s = Some p ->
  let s' := run (Feed Stdout bs :: resumed (2 * List.length us) StdoutPipe) s in
  sent s' = sent s ++ stdout_events (pid p) us
  /\ _stdout_pipe_task s'
     = Some (mkPump (mkReader [] false) (Reading AtReadline))
  /\ printed s' = printed s.
Proof.
  intros Hs Ht Hc Hp. cbv zeta. cbn [run fold_left].
  fold (run (resumed (2 * List.length us) StdoutPipe) (exec (Feed Stdout bs) s)).
  rewrite (@stdout_pipe_stream bs us Hs (exec (Feed Stdout bs) s) p [] false).
  - rewrite send_all_sent. cbn. auto.
  - cbn. rewrite Ht. cbn. now rewrite app_nil_r.
  - exact Hc.
  - exact Hp.
Qed.

Lemma stdout_relayed_in_order_witness :
  let bs := (bytes_of "Hi" ++ [newline])
            ++ frame (bytes_of "Name? ") ++ (bytes_of "Bye" ++ [newline])
            ++ [] in
  sent (run (Feed Stdout bs :: resumed 6 StdoutPipe)
            (started "app" CONNECTED 7))
  = [STDOUT 7 (text "Hi" ++ [10%N]) false; STDOUT 7 (text "Name? ") true;
     STDOUT 7 (text "Bye" ++ [10%N]) false].
Proof.
  cbv zeta.
  refine (proj1 (@stdout_relayed_in_order (started "app" CONNECTED 7)
    (mkPopen (_open_child_process (__init__ "app" CONNECTED)) 7 None None false)
    _ [(text "Hi" ++ [10%N], false); (text "Name? ", true);
       (text "Bye" ++ [10%N], false)] _ _ _ _)).
  - apply stdout_next.
    + apply line_unit; try reflexivity; try discriminate.
      unfold no_newline. cbn. intuition discriminate.
    + apply stdout_next.
      * apply prompt_unit; try reflexivity. discriminate.
      * apply stdout_next; [|apply stdout_end].
        apply line_unit; try reflexivity; try discriminate.
        unfold no_newline. cbn. intuition discriminate.
  - reflexivity.
  - reflexivity.
  - reflexivity.
Defined.

(** X3.  The error pump relays lines in order and whole: fed a run of
    lines while it awaits one, with a connected client and a process, it
    has sent after two resumptions per line one [STDERR] event per line,
    newline included, in order, and is back at its read. *)
Theorem stderr_relayed_in_order (s : session) (p : Popen) (bs : bytes)
  (ts : list str) :
  stderr_stream bs ts ->
  _stderr_pipe_task s = Some (mkPump (mkReader [] false) (Reading AtReadline)) ->
  client_connected s = true -> _process s = Some p ->
  let s' := run (Feed Stderr bs :: resumed (2 * List.length ts) StderrPipe) s in
  sent s' = sent s ++ stderr_events (pid p) ts
  /\ _stderr_pipe_task s'
     = Some (mkPump (mkReader [] false) (Reading AtReadline))
  /\ printed s' = printed s.
Proof.
  intros Hs Ht Hc Hp. cbv zeta. cbn [run fold_left].
  fold (run (resumed (2 * List.length ts) StderrPipe) (exec (Feed Stderr bs) s)).
  rewrite (@stderr_pipe_stream bs ts Hs (exec (Feed Stderr bs) s) p [] false).
  - rewrite send_all_sent. cbn. auto.
  - cbn. rewrite Ht. cbn. now rewrite app_nil_r.
  - exact Hc.
  - exact Hp.
Qed.

Lemma stderr_relayed_in_order_witness :
  sent (run (Feed Stderr ((bytes_of "oops" ++ [newline])
                          ++ (bytes_of "again" ++ [newline]) ++ [])
             :: resumed 4 StderrPipe)
            (started "app" CONNECTED 7))
  = [STDERR 7 (text "oops" ++ [10%N]); STDERR 7 (text "again" ++ [10%N])].
Proof.
  refine (proj1 (@stderr_relayed_in_order (started "app" CONNECTED 7)
    (mkPopen (_open_child_process (__init__ "app" CONNECTED)) 7 None None false)
    _ [text "oops" ++ [10%N]; text "again" ++ [10%N]] _ _ _ _)).
  - apply stderr_next; try reflexivity.
    + unfold no_newline. cbn. intuition discriminate.
    + discriminate.
    + apply stderr_next; try reflexivity; [| |apply stderr_end].
      * unfold no_newline. cbn. intuition discriminate.
      * discriminate.
  - reflexivity.
  - reflexivity.
  - reflexivity.
Defined.



(** ** What a move does to the process and to the tasks *)

Lemma pump_effect_process (t : pump) (s : session) (t' : pump) (s' : session)
  (p : Popen) :
  pump_effect t s t' s' -> _process s = Some p ->
  (_process s' = Some p \/ _process s' = Some (poll p))
  /\ _exit_task s' = _exit_task s
  /\ client_state s' = client_state s.
Proof.
  unfold pump_effect. intros H Hp. destruct (at_pc t).
  - destruct H as [[->|[->|[e ->]]] _]; cbn; rewrite ?Hp; cbn; auto.
  - destruct H as [-> _]. cbn. auto.
  - destruct H as [_ ->]. auto.
  - destruct H as [_ ->]. auto.
Qed.

Lemma exec_process (l : label) (s : session) (p : Popen) :
  _process s = Some p ->
  exists p', _process (exec l s) = Some p'
             /\ process_moved l (client_connected s) p p'.
Proof.
  intros Hp. unfold process_moved.
  destruct l as [fd data|fd|status| | |t|t e|fd]; unfold exec.
  - destruct fd; cbn; eauto.
  - destruct fd; cbn; eauto.
  - rewrite Hp. cbn. eexists. split; [reflexivity|]. right. right. left. eauto.
  - destruct (client_state s); cbn; eauto.
  - cbn. eauto.
  - destruct t.
    + destruct (_stdout_pipe_task s) as [t|]; [|eauto].
      destruct (_stdout_pipe t s) as [t' s'] eqn:E.
      apply stdout_pipe_effect in E.
      destruct (@pump_effect_process _ _ _ _ _ E Hp) as [[H|H] _]; cbn; eauto.
    + destruct (_stderr_pipe_task s) as [t|]; [|eauto].
      destruct (_stderr_pipe t s) as [t' s'] eqn:E.
      apply stderr_pipe_effect in E.
      destruct (@pump_effect_process _ _ _ _ _ E Hp) as [[H|H] _]; cbn; eauto.
    + destruct (_exit_task s) as [pc|]; [|eauto].
      destruct pc; cbn [_exit].
      * rewrite Hp. destruct (client_connected s) eqn:Hc;
          unfold subprocess_exited; cbn [_process set_process]; rewrite ?Hp;
          match goal with
          | |- context [returncode (poll ?q)] =>
            destruct (returncode (poll q)); cbn;
              (eexists; split; [reflexivity|]); auto 8
          end.
      * destruct (_stdout_pipe_task s), (_stderr_pipe_task s);
          try (cbn; now eauto).
        destruct (gather p0 p1); try (cbn; now eauto).
        destruct (client_connected s); [rewrite Hp|]; cbn; eauto.
      * cbn. eauto.
      * cbn. eauto.
      * cbn. eauto.
  - destruct t.
    + destruct (_stdout_pipe_task s) as [t|]; [|eauto].
      unfold pump_send_raises. destruct (at_pc t); cbn; eauto.
    + destruct (_stderr_pipe_task s) as [t|]; [|eauto].
      unfold pump_send_raises. destruct (at_pc t); cbn; eauto.
    + cbn. eauto.
  - destruct fd; cbn; eauto.
Qed.

(** A watcher that has come to its end stays there. *)
Lemma exec_terminal (l : label) (s : session) (pc : watcher_pc) :
  _exit_task s = Some pc -> terminal pc -> _exit_task (exec l s) = Some pc.
Proof.
  intros Hx Ht.
  destruct l as [fd data|fd|status| | |t|t e|fd]; unfold exec.
  - destruct fd; exact Hx.
  - destruct fd; exact Hx.
  - exact Hx.
  - destruct (client_state s); exact Hx.
  - exact Hx.
  - destruct t.
    + destruct (_stdout_pipe_task s) as [t|]; [|exact Hx].
      destruct (_stdout_pipe t s) as [t' s'] eqn:E.
      apply stdout_pipe_effect in E. unfold pump_effect in E.
      destruct (at_pc t);
        [destruct E as [[->|[->|[e ->]]] _]|destruct E as [-> _]
        |destruct E as [_ ->]|destruct E as [_ ->]]; exact Hx.
    + destruct (_stderr_pipe_task s) as [t|]; [|exact Hx].
      destruct (_stderr_pipe t s) as [t' s'] eqn:E.
      apply stderr_pipe_effect in E. unfold pump_effect in E.
      destruct (at_pc t);
        [destruct E as [[->|[->|[e ->]]] _]|destruct E as [-> _]
        |destruct E as [_ ->]|destruct E as [_ ->]]; exact Hx.
    + rewrite Hx. destruct pc; cbn in Ht; try contradiction; reflexivity.
  - destruct t.
    + destruct (_stdout_pipe_task s) as [t|]; [|exact Hx].
      unfold pump_send_raises. destruct (at_pc t); exact Hx.
    + destruct (_stderr_pipe_task s) as [t|]; [|exact Hx].
      unfold pump_send_raises. destruct (at_pc t); exact Hx.
    + rewrite Hx. destruct pc; cbn in Ht; try contradiction; reflexivity.
  - destruct fd; exact Hx.
Qed.

Lemma process_moved_returncode (l : label) (c : bool) (p p' : Popen) (rc : Z) :
  process_moved l c p p' -> returncode p = Some rc -> returncode p' = Some rc.
Proof.
  intros H Hr. assert (Hs : returncode p <> None) by congruence.
  destruct H as [->|[->|[(status & _ & ->)|(_ & _ & ->)]]].
  - assumption.
  - now rewrite (poll_set _ Hs).
  - unfold child_exits. now destruct (exit_status p).
  - now rewrite (kill_set _ Hs), (poll_set _ Hs).
Qed.

Lemma process_moved_sigkill (l : label) (p p' : Popen) :
  process_moved l true p p' -> sigkill p' = sigkill p.
Proof.
  intros [->|[->|[(status & _ & ->)|(H & _)]]].
  - reflexivity.
  - unfold poll. now destruct (returncode p).
  - unfold child_exits. now destruct (exit_status p).
  - discriminate.
Qed.

Lemma run_returncode (tr : list label) (s : session) (p : Popen) (rc : Z) :
  _process s = Some p -> returncode p = Some rc ->
  exists p', _process (run tr s) = Some p' /\ returncode p' = Some rc.
Proof.
  revert s p. induction tr as [|l tr IH]; intros s p Hp Hr; cbn.
  - eauto.
  - destruct (exec_process l s Hp) as (p' & Hp' & Hm).
    apply (IH _ p' Hp').
    exact (@process_moved_returncode l _ p p' rc Hm Hr).
Qed.

Lemma run_terminal (tr : list label) (s : session) (pc : watcher_pc) :
  _exit_task s = Some pc -> terminal pc -> _exit_task (run tr s) = Some pc.
Proof.
  revert s. induction tr as [|l tr IH]; intros s Hx Ht; cbn.
  - assumption.
  - apply IH; [|assumption]. now apply exec_terminal.
Qed.

Lemma run_process (tr : list label) (s : session) (p : Popen) :
  _process s = Some p -> exists p', _process (run tr s) = Some p'.
Proof.
  revert s p. induction tr as [|l tr IH]; intros s p Hp; cbn.
  - eauto.
  - destruct (exec_process l s Hp) as (p' & Hp' & _). eauto.
Qed.

(** ** The EXIT event's payload *)

(** X5.  In every run of a started session, an [EXIT] among the messages
    carries the pid that [start] returned and the exit status of the child
    as the operating system holds it. *)
Theorem exit_event_payload (module : string) (client : WebSocketState)
  (child : Z) (tr : list label) :
  let s := run tr (started module client child) in
  forall ev, In ev (sent s) -> is_exit ev = true ->
    exists p status,
      _process s = Some p /\ exit_status p = Some status
      /\ ev = EXIT child (Some status).
Proof.
  intros s ev Hin Hev.
  destruct (invariant_run tr (invariant_started module client child))
    as (p & out & err & pc & [Hp Ho He Hx Hpid Hc Hoo Heo Hw]).
  fold s in Hp, Ho, He, Hx, Hw.
  assert (Hno : no_exit (sent s) -> False).
  { intros H. unfold no_exit in H. rewrite Forall_forall in H.
    apply H in Hin. congruence. }
  destruct pc; cbn in Hw; try (exfalso; tauto).
  destruct Hw as (_ & _ & Hr & [Hne|(before & E & Hne)]); [exfalso; tauto|].
  rewrite E in Hin. apply in_app_or in Hin. destruct Hin as [Hin|[<-|[]]].
  - exfalso. unfold no_exit in Hne. rewrite Forall_forall in Hne.
    apply Hne in Hin. congruence.
  - destruct (returncode p) as [status|] eqn:Er; [|congruence].
    exists p, status. rewrite Hpid. auto.
Qed.

Lemma exit_event_payload_witness :
  In (EXIT 7 (Some 0%Z)) (sent (run scenario (started "app" CONNECTED 7)))
  /\ exists p status,
       _process (run scenario (started "app" CONNECTED 7)) = Some p
       /\ exit_status p = Some status
       /\ EXIT 7 (Some 0%Z) = EXIT 7 (Some status).
Proof.
  assert (Hin : In (EXIT 7 (Some 0%Z))
                   (sent (run scenario (started "app" CONNECTED 7))))
    by (cbn; auto).
  split; [exact Hin|].
  exact (@exit_event_payload "app" CONNECTED 7%Z scenario
           (EXIT 7 (Some 0%Z)) Hin eq_refl).
Defined.

(** ** [subprocess_exited] *)

(** X7.  The return code is latched: once the process of a session has a
    [returncode], no move changes it, and [subprocess_exited] answers true
    from then on. *)
Theorem returncode_latched (s : session) (p : Popen) (rc : Z)
  (tr : list label) :
  _process s = Some p -> returncode p = Some rc ->
  exists p', _process (run tr s) = Some p'
             /\ returncode p' = Some rc
             /\ fst (subprocess_exited (run tr s)) = true.
Proof.
  intros Hp Hr. destruct (run_returncode tr s Hp Hr) as (p' & Hp' & Hr').
  exists p'. split; [assumption|]. split; [assumption|].
  unfold subprocess_exited. rewrite Hp'. cbn.
  rewrite poll_set by congruence. now rewrite Hr'.
Qed.

Lemma returncode_latched_witness :
  let s := run [ChildExits 3; Resume ExitTask] (started "app" CONNECTED 7) in
  option_map returncode (_process s) = Some (Some 3%Z)
  /\ exists p',
       _process (run [ChildExits 4; Resume StdoutPipe; ClientDisconnects;
                      Resume ExitTask] s) = Some p'
       /\ returncode p' = Some 3%Z
       /\ fst (subprocess_exited
                 (run [ChildExits 4; Resume StdoutPipe; ClientDisconnects;
                       Resume ExitTask] s)) = true.
Proof.
  cbv zeta. split; [reflexivity|].
  eapply (@returncode_latched
            (run [ChildExits 3; Resume ExitTask] (started "app" CONNECTED 7)));
    reflexivity.
Defined.

(** X8.  [subprocess_exited] tells the truth: before [start] it answers
    false and changes nothing; in every run of a started session it answers
    true exactly when the child has ended, and it leaves [returncode] equal
    to the status the operating system holds. *)
Theorem subprocess_exited_accurate (module : string) (client : WebSocketState)
  (child : Z) (tr : list label) :
  subprocess_exited (__init__ module client)
  = (false, __init__ module client)
  /\ let s := run tr (started module client child) in
     exists p,
       _process s = Some p
       /\ fst (subprocess_exited s)
          = match exit_status p with Some _ => true | None => false end
       /\ option_map returncode (_process (snd (subprocess_exited s)))
          = Some (exit_status p).
Proof.
  split; [reflexivity|]. intros s.
  destruct (invariant_run tr (invariant_started module client child))
    as (p & out & err & pc & [Hp Ho He Hx Hpid Hc Hoo Heo Hw]).
  fold s in Hp. exists p. split; [assumption|].
  unfold subprocess_exited. rewrite Hp. cbn.
  destruct (returncode p) as [rc|] eqn:Er.
  - rewrite poll_set by congruence. rewrite Er, (Hc rc Er). auto.
  - rewrite (poll_unset _ Er). cbn. destruct (exit_status p); auto.
Qed.

(** ** [await_end], again *)

(** X9.  The answer of [await_end] is final: once it has returned a value
    it returns the same value after any further moves, and once it has
    raised the watcher's exception it goes on raising it. *)
Theorem await_end_final (module : string) (client : WebSocketState)
  (child : Z) (before after : list label) :
  let s := run before (started module client child) in
  (forall v, await_end s = Return v -> await_end (run after s) = Return v)
  /\ (forall e, await_end s = Raise e -> await_end (run after s) = Raise e).
Proof.
  intros s.
  destruct (invariant_run before (invariant_started module client child))
    as (p & out & err & pc & [Hp Ho He Hx Hpid Hc Hoo Heo Hw]).
  fold s in Hp, Ho, He, Hx, Hw. unfold await_end at 1 3.
  rewrite Hp, Hx. split.
  - intros v Hv. destruct pc; try discriminate. inversion Hv; subst v.
    cbn in Hw. destruct Hw as (_ & _ & Hr & _).
    destruct (returncode p) as [rc|] eqn:Er; [|congruence].
    destruct (run_returncode after s Hp Er) as (p' & Hp' & Hr').
    unfold await_end. rewrite Hp', (run_terminal after s Hx I).
    now rewrite Hr'.
  - intros e He'. destruct pc; try discriminate. inversion He'; subst e0.
    destruct (run_process after s Hp) as (p' & Hp').
    unfold await_end. now rewrite Hp', (run_terminal after s Hx I).
Qed.

Lemma await_end_final_witness :
  await_end (run scenario (started "app" CONNECTED 7)) = Return (Some 0%Z)
  /\ await_end (run [ClientDisconnects; Resume ExitTask; ChildExits 9;
                     Resume StdoutPipe]
                    (run scenario (started "app" CONNECTED 7)))
     = Return (Some 0%Z).
Proof.
  split; [reflexivity|].
  apply (proj1 (@await_end_final "app" CONNECTED 7%Z scenario
                  [ClientDisconnects; Resume ExitTask; ChildExits 9;
                   Resume StdoutPipe])).
  reflexivity.
Defined.

(** ** The kill *)

(** Only the client's own moves change its state. *)
Lemma exec_client_state (l : label) (s : session) :
  l <> ClientDisconnects -> client_state s <> CONNECTING ->
  client_state (exec l s) = client_state s.
Proof.
  intros Hl Hc.
  destruct l as [fd data|fd|status| | |t|t e|fd]; unfold exec.
  - destruct fd; reflexivity.
  - destruct fd; reflexivity.
  - reflexivity.
  - destruct (client_state s) eqn:E; cbn; congruence.
  - congruence.
  - destruct t.
    + destruct (_stdout_pipe_task s) as [t|]; [|reflexivity].
      destruct (_stdout_pipe t s) as [t' s'] eqn:E.
      apply stdout_pipe_effect in E. unfold pump_effect in E.
      destruct (at_pc t);
        [destruct E as [[->|[->|[e ->]]] _]|destruct E as [-> _]
        |destruct E as [_ ->]|destruct E as [_ ->]]; reflexivity.
    + destruct (_stderr_pipe_task s) as [t|]; [|reflexivity].
      destruct (_stderr_pipe t s) as [t' s'] eqn:E.
      apply stderr_pipe_effect in E. unfold pump_effect in E.
      destruct (at_pc t);
        [destruct E as [[->|[->|[e ->]]] _]|destruct E as [-> _]
        |destruct E as [_ ->]|destruct E as [_ ->]]; reflexivity.
    + destruct (_exit_task s) as [pc|]; [|reflexivity].
      destruct pc; cbn [_exit].
      * destruct (_process s) as [p|] eqn:Hp; [|reflexivity].
        destruct (client_connected s); unfold subprocess_exited;
          cbn [_process set_process]; rewrite ?Hp;
          match goal with
          | |- context [returncode (poll ?q)] =>
            destruct (returncode (poll q)); reflexivity
          end.
      * destruct (_stdout_pipe_task s), (_stderr_pipe_task s);
          try reflexivity.
        destruct (gather p p0); try reflexivity.
        destruct (client_connected s); [|reflexivity].
        destruct (_process s); reflexivity.
      * reflexivity.
      * reflexivity.
      * reflexivity.
  - destruct t.
    + destruct (_stdout_pipe_task s) as [t|]; [|reflexivity].
      unfold pump_send_raises. destruct (at_pc t); reflexivity.
    + destruct (_stderr_pipe_task s) as [t|]; [|reflexivity].
      unfold pump_send_raises. destruct (at_pc t); reflexivity.
    + reflexivity.
  - destruct fd; reflexivity.
Qed.

Lemma label_eq_disconnect (l : label) :
  l = ClientDisconnects \/ l <> ClientDisconnects.
Proof. destruct l; (now left) || (right; discriminate). Qed.

Lemma killed_only_away (tr : list label) (s : session) (p : Popen) :
  _process s = Some p ->
  client_state s = DISCONNECTED
  \/ (client_state s = CONNECTED /\ sigkill p = false) ->
  exists p', _process (run tr s) = Some p'
             /\ (client_state (run tr s) = DISCONNECTED
                 \/ (client_state (run tr s) = CONNECTED
                     /\ sigkill p' = false)).
Proof.
  revert s p. induction tr as [|l tr IH]; intros s p Hp Hk; cbn.
  - eauto.
  - destruct (exec_process l s Hp) as (p' & Hp' & Hm).
    apply (IH _ p' Hp').
    destruct (label_eq_disconnect l) as [->|Hl].
    + left. reflexivity.
    + destruct Hk as [Hd|[Hc Hs]].
      * left. rewrite exec_client_state; [assumption..|congruence].
      * right. rewrite exec_client_state; [|assumption|congruence].
        split; [assumption|].
        unfold client_connected in Hm. rewrite Hc in Hm.
        now rewrite (process_moved_sigkill Hm).
Qed.

(** X10.  The child is killed only when the client is away: in every run
    of a session started with a connected client, a process that has been
    sent SIGKILL means the client has disconnected. *)
Theorem child_killed_only_when_client_away (module : string) (child : Z)
  (tr : list label) :
  let s := run tr (started module CONNECTED child) in
  forall p, _process s = Some p -> sigkill p = true ->
            client_state s = DISCONNECTED.
Proof.
  intros s p Hp Hk.
  destruct (@killed_only_away tr (started module CONNECTED child)
              (mkPopen (_open_child_process (__init__ module CONNECTED))
                       child None None false) eq_refl)
    as (p' & Hp' & [Hd|[_ Hs]]).
  - right. split; reflexivity.
  - exact Hd.
  - fold s in Hp'. rewrite Hp in Hp'. inversion Hp'; subst p'. congruence.
Qed.

Lemma child_killed_only_when_client_away_witness :
  let s := run [ClientDisconnects; Resume ExitTask]
               (started "app" CONNECTED 7) in
  option_map sigkill (_process s) = Some true
  /\ client_state s = DISCONNECTED.
Proof.
  cbv zeta. split; [reflexivity|].
  eapply (@child_killed_only_when_client_away "app" 7%Z
            [ClientDisconnects; Resume ExitTask]); reflexivity.
Defined.

(** ** Why a pump stops, and what it sends *)

Lemma relay_outcome (event : Z -> str -> WebSocketEvent) (output : str)
  (s : session) (next : pump_pc) (s' : session) :
  relay event output s = (next, s') ->
  match next with
  | PumpDone =>
    client_connected s = false
    \/ exists p rc, _process s' = Some p /\ returncode p = Some rc
  | Sending ev =>
    exists p, _process s = Some p /\ ev = event (pid p) output /\ output <> []
  | _ => True
  end.
Proof.
  unfold relay. destruct output as [|c output].
  - unfold subprocess_exited. destruct (_process s) as [p|] eqn:Hp.
    + destruct (returncode (poll p)) as [rc|] eqn:Er; cbn.
      * intros H; inversion H; subst. right. exists (poll p), rc. auto.
      * unfold client_connected at 1. cbn [client_state set_process].
        fold (client_connected s).
        destruct (client_connected s) eqn:Hc; cbn; intros H; inversion H;
          subst; auto.
    + cbn. destruct (client_connected s) eqn:Hc; cbn; intros H; inversion H;
        subst; auto.
  - destruct (client_connected s) eqn:Hc; cbn.
    + destruct (_process s) as [p|]; intros H; inversion H; subst; [|exact I].
      exists p. repeat split. discriminate.
    + intros H; inversion H; subst. auto.
Qed.

Lemma stdout_pipe_outcome (t : pump) (s : session) (t' : pump) (s' : session) :
  _stdout_pipe t s = (t', s') ->
  match at_pc t' with
  | PumpDone =>
    at_pc t = PumpDone \/ client_connected s = false
    \/ exists p rc, _process s' = Some p /\ returncode p = Some rc
  | Sending ev =>
    exists p d b, _process s = Some p /\ ev = STDOUT (pid p) d b /\ d <> []
  | _ => True
  end.
Proof.
  unfold _stdout_pipe. destruct (at_pc t) as [pc|ev| |e] eqn:Et.
  - destruct (_read_stdout pc (reader t)) as [[pc'|e|[output is_prompt]] r].
    + intros H; inversion H; subst. exact I.
    + intros H; inversion H; subst. exact I.
    + destruct (relay _ output s) as [next s1] eqn:E.
      intros H; inversion H; subst. cbn [at_pc].
      apply relay_outcome in E. destruct next; try exact I.
      * destruct E as (p & Hp & -> & Hne). exists p, output, is_prompt. auto.
      * tauto.
  - intros H; inversion H; subst. exact I.
  - intros H; inversion H; subst. rewrite Et. auto.
  - intros H; inversion H; subst. now rewrite Et.
Qed.

Lemma stderr_pipe_outcome (t : pump) (s : session) (t' : pump) (s' : session) :
  _stderr_pipe t s = (t', s') ->
  match at_pc t' with
  | PumpDone =>
    at_pc t = PumpDone \/ client_connected s = false
    \/ exists p rc, _process s' = Some p /\ returncode p = Some rc
  | Sending ev =>
    exists p d, _process s = Some p /\ ev = STDERR (pid p) d /\ d <> []
  | _ => True
  end.
Proof.
  unfold _stderr_pipe. destruct (at_pc t) as [pc|ev| |e] eqn:Et.
  - destruct (readline (reader t)) as [[|e|line] r].
    + intros H; inversion H; subst. exact I.
    + intros H; inversion H; subst. exact I.
    + destruct (decode line) as [output|].
      * destruct (relay STDERR output s) as [next s1] eqn:E.
        intros H; inversion H; subst. cbn [at_pc].
        apply relay_outcome in E. destruct next; try exact I.
        -- destruct E as (p & Hp & -> & Hne). exists p, output. auto.
        -- tauto.
      * intros H; inversion H; subst. exact I.
  - intros H; inversion H; subst. exact I.
  - intros H; inversion H; subst. rewrite Et. auto.
  - intros H; inversion H; subst. now rewrite Et.
Qed.

Lemma pump_effect_frame (t : pump) (s : session) (t' : pump) (s' : session) :
  pump_effect t s t' s' ->
  _stdout_pipe_task s' = _stdout_pipe_task s
  /\ _stderr_pipe_task s' = _stderr_pipe_task s
  /\ _exit_task s' = _exit_task s.
Proof.
  unfold pump_effect. destruct (at_pc t).
  - intros [[->|[->|[e ->]]] _]; auto.
  - intros [-> _]. auto.
  - intros [_ ->]. auto.
  - intros [_ ->]. auto.
Qed.

Lemma exit_frame (pc : watcher_pc) (s : session) :
  _stdout_pipe_task (snd (_exit pc s)) = _stdout_pipe_task s
  /\ _stderr_pipe_task (snd (_exit pc s)) = _stderr_pipe_task s.
Proof.
  destruct pc; cbn [_exit].
  - destruct (_process s) as [p|] eqn:Hp; [|auto].
    destruct (client_connected s); unfold subprocess_exited;
      cbn [_process set_process]; rewrite ?Hp;
      match goal with
      | |- context [returncode (poll ?q)] =>
        destruct (returncode (poll q)); cbn; auto
      end.
  - destruct (_stdout_pipe_task s) as [out|] eqn:Ho,
      (_stderr_pipe_task s) as [err|] eqn:He; try (cbn; now auto).
    destruct (gather out err); try (cbn; now auto).
    destruct (client_connected s); [|cbn; now auto].
    destruct (_process s); cbn; auto.
  - cbn. auto.
  - cbn. auto.
  - cbn. auto.
Qed.

Lemma in_flight_pump (fd : pipe) (s : session) (t : pump)
  (ev : WebSocketEvent) :
  pump_of fd s = Some t -> at_pc t = Sending ev -> In ev (in_flight s).
Proof.
  intros Ht Hpc. unfold in_flight. destruct fd; cbn in Ht; rewrite Ht; cbn;
    rewrite Hpc.
  - now left.
  - apply in_or_app. right. now left.
Qed.

Lemma in_flight_watcher (s : session) (ev : WebSocketEvent) :
  _exit_task s = Some (SendingExit ev) -> In ev (in_flight s).
Proof.
  intros Hx. unfold in_flight. rewrite Hx.
  apply in_or_app. right. apply in_or_app. right. now left.
Qed.

Lemma in_flight_inv (s : session) (ev : WebSocketEvent) :
  In ev (in_flight s) ->
  (exists fd t, pump_of fd s = Some t /\ at_pc t = Sending ev)
  \/ _exit_task s = Some (SendingExit ev).
Proof.
  unfold in_flight. intros H.
  apply in_app_or in H. destruct H as [H|H]; [|apply in_app_or in H;
                                                 destruct H as [H|H]].
  - left. exists Stdout. cbn. destruct (_stdout_pipe_task s) as [t|]; [|easy].
    exists t. cbn in H. destruct (at_pc t); cbn in H; try easy.
    destruct H as [->|[]]. auto.
  - left. exists Stderr. cbn. destruct (_stderr_pipe_task s) as [t|]; [|easy].
    exists t. cbn in H. destruct (at_pc t); cbn in H; try easy.
    destruct H as [->|[]]. auto.
  - right. destruct (_exit_task s) as [[]|]; cbn in H; try easy.
    destruct H as [->|[]]. reflexivity.
Qed.

(** The pump of a pipe after a move, against the same pump before. *)
Lemma exec_pump (l : label) (s : session) (fd : pipe) (t' : pump) :
  pump_of fd (exec l s) = Some t' ->
  exists t,
    pump_of fd s = Some t
    /\ match at_pc t' with
       | PumpDone =>
         at_pc t = PumpDone \/ (exists fd', l = Cancel fd')
         \/ client_connected s = false
         \/ exists p rc, _process (exec l s) = Some p
                         /\ returncode p = Some rc
       | Sending ev =>
         at_pc t = Sending ev
         \/ exists p, _process s = Some p /\ event_of (pid p) ev
       | _ => True
       end.
Proof.
  set (s' := exec l s). assert (Es : s' = exec l s) by reflexivity.
  clearbody s'.
  assert (Hsame : forall t, pump_of fd s = Some t -> at_pc t' = at_pc t ->
            exists t0, pump_of fd s = Some t0
              /\ match at_pc t' with
                 | PumpDone =>
                   at_pc t0 = PumpDone \/ (exists fd', l = Cancel fd')
                   \/ client_connected s = false
                   \/ exists p rc, _process s' = Some p
                                   /\ returncode p = Some rc
                 | Sending ev =>
                   at_pc t0 = Sending ev
                   \/ exists p, _process s = Some p /\ event_of (pid p) ev
                 | _ => True
                 end).
  { intros t Ht E. exists t. split; [assumption|]. rewrite E.
    destruct (at_pc t); auto. }
  intros H. rewrite Es in H.
  destruct l as [fd' data|fd'|status| | |t|t e|fd']; unfold exec in H.
  - destruct fd', fd; cbn in H; try (now apply (Hsame t')).
    + destruct (_stdout_pipe_task s) as [t0|] eqn:E; cbn in H; [|discriminate].
      inversion H; subst t'. now apply (Hsame t0).
    + destruct (_stderr_pipe_task s) as [t0|] eqn:E; cbn in H; [|discriminate].
      inversion H; subst t'. now apply (Hsame t0).
  - destruct fd', fd; cbn in H; try (now apply (Hsame t')).
    + destruct (_stdout_pipe_task s) as [t0|] eqn:E; cbn in H; [|discriminate].
      inversion H; subst t'. now apply (Hsame t0).
    + destruct (_stderr_pipe_task s) as [t0|] eqn:E; cbn in H; [|discriminate].
      inversion H; subst t'. now apply (Hsame t0).
  - destruct fd; cbn in H; now apply (Hsame t').
  - destruct (client_state s); destruct fd; cbn in H; now apply (Hsame t').
  - destruct fd; cbn in H; now apply (Hsame t').
  - destruct t.
    + destruct (_stdout_pipe_task s) as [t0|] eqn:Ht;
        [|now apply (Hsame t')].
      destruct (_stdout_pipe t0 s) as [t1 s1] eqn:E.
      pose proof (@stdout_pipe_outcome _ _ _ _ E) as Hout.
      pose proof E as Estep. apply stdout_pipe_effect in E.
      destruct (@pump_effect_frame _ _ _ _ E) as (Fo & Fe & _).
      destruct fd; cbn in H.
      * inversion H; subst t1. exists t0. split; [exact Ht|].
        destruct (at_pc t') as [| ev | |]; try exact I.
        -- destruct Hout as (p & d & b & Hp & -> & Hne). right.
           exists p. cbn. auto.
        -- rewrite Es. unfold exec. rewrite Ht, Estep.
           cbn [_process set_stdout_pipe_task]. tauto.
      * rewrite Fe in H. now apply (Hsame t').
    + destruct (_stderr_pipe_task s) as [t0|] eqn:Ht;
        [|now apply (Hsame t')].
      destruct (_stderr_pipe t0 s) as [t1 s1] eqn:E.
      pose proof (@stderr_pipe_outcome _ _ _ _ E) as Hout.
      pose proof E as Estep. apply stderr_pipe_effect in E.
      destruct (@pump_effect_frame _ _ _ _ E) as (Fo & Fe & _).
      destruct fd; cbn in H.
      * rewrite Fo in H. now apply (Hsame t').
      * inversion H; subst t1. exists t0. split; [exact Ht|].
        destruct (at_pc t') as [| ev | |]; try exact I.
        -- destruct Hout as (p & d & Hp & -> & Hne). right.
           exists p. cbn. auto.
        -- rewrite Es. unfold exec. rewrite Ht, Estep.
           cbn [_process set_stderr_pipe_task]. tauto.
    + destruct (_exit_task s) as [pc|]; [|now apply (Hsame t')].
      destruct (exit_frame pc s) as [Fo Fe].
      destruct (_exit pc s) as [pc' s1]. cbn [fst snd] in *.
      destruct fd; cbn in H; rewrite ?Fo, ?Fe in H; now apply (Hsame t').
  - destruct t.
    + destruct (_stdout_pipe_task s) as [t0|] eqn:Ht;
        [|now apply (Hsame t')].
      unfold pump_send_raises in H.
      destruct fd.
      * destruct (at_pc t0) eqn:E0; cbn in H; inversion H; subst t';
          try (apply (Hsame t0); [exact Ht|now rewrite E0]).
        exists t0. split; [exact Ht|]. exact I.
      * destruct (at_pc t0); cbn in H; now apply (Hsame t').
    + destruct (_stderr_pipe_task s) as [t0|] eqn:Ht;
        [|now apply (Hsame t')].
      unfold pump_send_raises in H.
      destruct fd.
      * destruct (at_pc t0); cbn in H; now apply (Hsame t').
      * destruct (at_pc t0) eqn:E0; cbn in H; inversion H; subst t';
          try (apply (Hsame t0); [exact Ht|now rewrite E0]).
        exists t0. split; [exact Ht|]. exact I.
    + destruct fd; cbn in H; now apply (Hsame t').
  - destruct fd', fd; cbn in H; try (now apply (Hsame t')).
    + destruct (_stdout_pipe_task s) as [t0|] eqn:E; cbn in H; [|discriminate].
      inversion H; subst t'. exists t0. split; [exact E|].
      unfold pump_cancelled. destruct (at_pc t0) eqn:E0; cbn; rewrite ?E0;
        eauto.
    + destruct (_stderr_pipe_task s) as [t0|] eqn:E; cbn in H; [|discriminate].
      inversion H; subst t'. exists t0. split; [exact E|].
      unfold pump_cancelled. destruct (at_pc t0) eqn:E0; cbn; rewrite ?E0;
        eauto.
Qed.

Lemma pumps_stop_step (l : label) (s : session) :
  undisturbed l -> client_state s = CONNECTED ->
  (forall fd t, pump_of fd s = Some t -> at_pc t = PumpDone ->
     exists p rc, _process s = Some p /\ returncode p = Some rc) ->
  client_state (exec l s) = CONNECTED
  /\ (forall fd t, pump_of fd (exec l s) = Some t -> at_pc t = PumpDone ->
        exists p rc, _process (exec l s) = Some p /\ returncode p = Some rc).
Proof.
  intros [Hd Hcancel] Hc Hq. split.
  - rewrite exec_client_state; [assumption..|congruence].
  - intros fd t' Ht' Hdone.
    destruct (exec_pump l s fd Ht') as (t & Ht & Hcase).
    rewrite Hdone in Hcase.
    destruct Hcase as [Hwas|[[fd' ->]|[Haway|Hnow]]].
    + destruct (Hq fd t Ht Hwas) as (p & rc & Hp & Hr).
      destruct (exec_process l s Hp) as (p' & Hp' & Hm).
      exists p', rc. split; [assumption|].
      exact (@process_moved_returncode l _ p p' rc Hm Hr).
    + exfalso. now apply (Hcancel fd').
    + unfold client_connected in Haway. rewrite Hc in Haway. discriminate.
    + exact Hnow.
Qed.

Lemma pumps_stop_run (tr : list label) (s : session) :
  Forall undisturbed tr -> client_state s = CONNECTED ->
  (forall fd t, pump_of fd s = Some t -> at_pc t = PumpDone ->
     exists p rc, _process s = Some p /\ returncode p = Some rc) ->
  forall fd t, pump_of fd (run tr s) = Some t -> at_pc t = PumpDone ->
    exists p rc, _process (run tr s) = Some p /\ returncode p = Some rc.
Proof.
  revert s. induction tr as [|l tr IH]; intros s Hu Hc Hq; cbn.
  - assumption.
  - inversion Hu as [|l' tr' Hl Htr]; subst.
    destruct (@pumps_stop_step l s Hl Hc Hq) as [Hc' Hq'].
    now apply IH.
Qed.

(** X11.  A pump stops only for a reason: in a run of a session started
    with a connected client, in which the client does not leave and no pump
    is cancelled, a pump task that is over means that a poll has seen the
    end of the child ([returncode] is set, to the child's exit status).
    While the child runs, both pumps go on reading. *)
Theorem pumps_stop_for_a_reason (module : string) (child : Z)
  (tr : list label) :
  Forall undisturbed tr ->
  let s := run tr (started module CONNECTED child) in
  forall fd t, pump_of fd s = Some t -> at_pc t = PumpDone ->
    exists p status,
      _process s = Some p /\ returncode p = Some status
      /\ exit_status p = Some status.
Proof.
  intros Hu s fd t Ht Hdone.
  destruct (@pumps_stop_run tr (started module CONNECTED child) Hu eq_refl)
    with (fd := fd) (t := t) as (p & rc & Hp & Hr); try assumption.
  - intros fd' t' Ht' Hd'. destruct fd'; cbn in Ht'; inversion Ht'; subst t';
      discriminate.
  - destruct (invariant_run tr (invariant_started module CONNECTED child))
      as (p' & out & err & pc & [Hp' _ _ _ _ Hc _ _ _]).
    fold s in Hp, Hp'. rewrite Hp in Hp'. inversion Hp'; subst p'.
    exists p, rc. auto.
Qed.

Lemma pumps_stop_for_a_reason_witness :
  let tr := [ChildExits 0; FeedEof Stdout; Resume StdoutPipe] in
  Forall undisturbed tr
  /\ option_map at_pc (pump_of Stdout (run tr (started "app" CONNECTED 7)))
     = Some PumpDone
  /\ exists p status,
       _process (run tr (started "app" CONNECTED 7)) = Some p
       /\ returncode p = Some status /\ exit_status p = Some status.
Proof.
  cbv zeta.
  assert (Hu : Forall undisturbed
                 [ChildExits 0; FeedEof Stdout; Resume StdoutPipe])
    by (repeat constructor; discriminate).
  split; [exact Hu|]. split; [reflexivity|].
  eapply (@pumps_stop_for_a_reason "app" 7%Z _ Hu Stdout); reflexivity.
Defined.

(** ** What is sent *)

(** A move adds at most one message, and only one that was inside a
    [send_text]. *)
Lemma exec_sent (l : label) (s : session) :
  sent (exec l s) = sent s
  \/ exists ev, In ev (in_flight s) /\ sent (exec l s) = sent s ++ [ev].
Proof.
  destruct l as [fd data|fd|status| | |t|t e|fd]; unfold exec.
  - destruct fd; auto.
  - destruct fd; auto.
  - auto.
  - destruct (client_state s); auto.
  - auto.
  - destruct t.
    + destruct (_stdout_pipe_task s) as [t|] eqn:Ht; [|auto].
      destruct (_stdout_pipe t s) as [t' s'] eqn:E.
      apply stdout_pipe_effect in E. unfold pump_effect in E.
      destruct (at_pc t) as [pc|ev| |e] eqn:Et.
      * destruct E as [[->|[->|[e ->]]] _]; auto.
      * destruct E as [-> _]. right. exists ev. split; [|reflexivity].
        now apply (@in_flight_pump Stdout s t).
      * destruct E as [_ ->]. auto.
      * destruct E as [_ ->]. auto.
    + destruct (_stderr_pipe_task s) as [t|] eqn:Ht; [|auto].
      destruct (_stderr_pipe t s) as [t' s'] eqn:E.
      apply stderr_pipe_effect in E. unfold pump_effect in E.
      destruct (at_pc t) as [pc|ev| |e] eqn:Et.
      * destruct E as [[->|[->|[e ->]]] _]; auto.
      * destruct E as [-> _]. right. exists ev. split; [|reflexivity].
        now apply (@in_flight_pump Stderr s t).
      * destruct E as [_ ->]. auto.
      * destruct E as [_ ->]. auto.
    + destruct (_exit_task s) as [pc|] eqn:Hx; [|auto].
      destruct pc; cbn [_exit].
      * destruct (_process s) as [p|] eqn:Hp; [|auto].
        destruct (client_connected s); unfold subprocess_exited;
          cbn [_process set_process]; rewrite ?Hp;
          match goal with
          | |- context [returncode (poll ?q)] =>
            destruct (returncode (poll q)); cbn; auto
          end.
      * destruct (_stdout_pipe_task s), (_stderr_pipe_task s);
          try (cbn; now auto).
        destruct (gather p p0); try (cbn; now auto).
        destruct (client_connected s); [|cbn; now auto].
        destruct (_process s); cbn; auto.
      * cbn. right. exists ev. split; [|reflexivity].
        now apply in_flight_watcher.
      * cbn. auto.
      * cbn. auto.
  - destruct t.
    + destruct (_stdout_pipe_task s) as [t|]; [|auto].
      unfold pump_send_raises. destruct (at_pc t); cbn; auto.
    + destruct (_stderr_pipe_task s) as [t|]; [|auto].
      unfold pump_send_raises. destruct (at_pc t); cbn; auto.
    + cbn. auto.
  - destruct fd; cbn; auto.
Qed.

(** The watcher enters its [send_text] with the process's pid and
    [returncode]. *)
Lemma exec_watcher_sending (l : label) (s : session) (ev : WebSocketEvent) :
  _exit_task (exec l s) = Some (SendingExit ev) ->
  _exit_task s = Some (SendingExit ev)
  \/ exists p, _process s = Some p /\ ev = EXIT (pid p) (returncode p).
Proof.
  destruct l as [fd data|fd|status| | |t|t e|fd]; unfold exec.
  - destruct fd; auto.
  - destruct fd; auto.
  - auto.
  - destruct (client_state s); auto.
  - auto.
  - destruct t.
    + destruct (_stdout_pipe_task s) as [t|] eqn:Ht; [|auto].
      destruct (_stdout_pipe t s) as [t' s'] eqn:E.
      apply stdout_pipe_effect in E.
      destruct (@pump_effect_frame _ _ _ _ E) as (_ & _ & Fx).
      cbn. rewrite Fx. auto.
    + destruct (_stderr_pipe_task s) as [t|] eqn:Ht; [|auto].
      destruct (_stderr_pipe t s) as [t' s'] eqn:E.
      apply stderr_pipe_effect in E.
      destruct (@pump_effect_frame _ _ _ _ E) as (_ & _ & Fx).
      cbn. rewrite Fx. auto.
    + destruct (_exit_task s) as [pc|] eqn:Hx; [|rewrite Hx; discriminate].
      destruct pc; cbn [_exit].
      * destruct (_process s) as [p|] eqn:Hp; [|cbn; discriminate].
        destruct (client_connected s); unfold subprocess_exited;
          cbn [_process set_process]; rewrite ?Hp;
          match goal with
          | |- context [returncode (poll ?q)] =>
            destruct (returncode (poll q)); cbn; discriminate
          end.
      * destruct (_stdout_pipe_task s), (_stderr_pipe_task s);
          try (cbn; discriminate).
        destruct (gather p p0); try (cbn; discriminate).
        destruct (client_connected s); [|cbn; discriminate].
        destruct (_process s) as [q|]; cbn; [|discriminate].
        intros H; inversion H. right. eauto.
      * cbn. discriminate.
      * cbn. discriminate.
      * cbn. discriminate.
  - destruct t.
    + destruct (_stdout_pipe_task s) as [t|]; [|auto].
      unfold pump_send_raises. destruct (at_pc t); cbn; auto.
    + destruct (_stderr_pipe_task s) as [t|]; [|auto].
      unfold pump_send_raises. destruct (at_pc t); cbn; auto.
    + cbn. destruct (_exit_task s) as [[]|]; cbn; try discriminate; auto.
  - destruct fd; cbn; auto.
Qed.

Lemma events_step (child : Z) (l : label) (s : session) :
  invariant child s ->
  Forall (event_of child) (sent s) ->
  (forall ev, In ev (in_flight s) -> event_of child ev) ->
  Forall (event_of child) (sent (exec l s))
  /\ (forall ev, In ev (in_flight (exec l s)) -> event_of child ev).
Proof.
  intros (p & out & err & pc & [Hp _ _ _ Hpid _ _ _ _]) Hs Hf. split.
  - destruct (exec_sent l s) as [->|(ev & Hin & ->)]; [assumption|].
    apply Forall_app. split; [assumption|]. constructor; [auto|constructor].
  - intros ev Hin. apply in_flight_inv in Hin.
    destruct Hin as [(fd & t' & Ht' & Hpc)|Hx].
    + destruct (exec_pump l s fd Ht') as (t & Ht & Hcase).
      rewrite Hpc in Hcase. destruct Hcase as [Hwas|(q & Hq & Hev)].
      * apply Hf. now apply (@in_flight_pump fd s t).
      * rewrite Hp in Hq. inversion Hq; subst q. now rewrite <- Hpid.
    + apply exec_watcher_sending in Hx. destruct Hx as [Hx|(q & Hq & ->)].
      * apply Hf. now apply in_flight_watcher.
      * rewrite Hp in Hq. inversion Hq; subst q. cbn. assumption.
Qed.

Lemma events_run (child : Z) (tr : list label) (s : session) :
  invariant child s ->
  Forall (event_of child) (sent s) ->
  (forall ev, In ev (in_flight s) -> event_of child ev) ->
  Forall (event_of child) (sent (run tr s)).
Proof.
  revert s. induction tr as [|l tr IH]; intros s Hi Hs Hf; cbn.
  - assumption.
  - destruct (events_step l Hi Hs Hf) as [Hs' Hf'].
    apply IH; [now apply invariant_exec|assumption..].
Qed.

(** X6.  In every run of a started session, each message sent carries the
    pid that [start] returned, and no [STDOUT] or [STDERR] event has empty
    data. *)
Theorem events_carry_pid_and_data (module : string) (client : WebSocketState)
  (child : Z) (tr : list label) :
  Forall (event_of child) (sent (run tr (started module client child))).
Proof.
  apply events_run.
  - apply invariant_started.
  - constructor.
  - intros ev [].
Qed.

(** ** Two edges of the framing *)

(** X12.  A prompt of length zero is taken for the end of the stream.  When
    the output pump reads a marker line whose field parses to 0, it sends
    nothing and polls the child: if the child has ended (or the client is
    away) the pump stops there, with whatever follows still in its reader,
    never to be relayed; otherwise it reads on. *)
Theorem empty_prompt_ends_pump (s : session) (p : Popen)
  (field rest : bytes) (eof : bool) (digits : str) :
  _stdout_pipe_task s
  = Some (mkPump (mkReader (marker ++ field ++ newline :: rest) eof)
                 (Reading AtReadline)) ->
  no_newline field -> (size (marker ++ field) <= _limit)%N ->
  decode (field ++ [newline]) = Some digits -> int digits = Some 0%Z ->
  _process s = Some p ->
  exec (Resume StdoutPipe) s
  = set_stdout_pipe_task
      (Some (mkPump (mkReader rest eof)
                    (if match returncode (poll p) with
                        | Some _ => true
                        | None => false
                        end || negb (client_connected s)
                     then PumpDone else Reading AtReadline)))
      (set_process (Some (poll p)) s)
  /\ sent (exec (Resume StdoutPipe) s) = sent s.
Proof.
  intros Ht Hn Hl Hd Hi Hp.
  assert (Hread : _read_stdout AtReadline
            (mkReader (marker ++ field ++ newline :: rest) eof)
            = (Returned ([], true), mkReader rest eof)).
  { unfold _read_stdout.
    change (marker ++ field ++ newline :: rest)
      with ((marker ++ field) ++ newline :: rest).
    rewrite readline_line by (auto using marker_line_no_newline).
    rewrite <- app_assoc.
    change (firstn 4 (marker ++ field ++ [newline])) with marker.
    change (skipn 4 (marker ++ field ++ [newline])) with (field ++ [newline]).
    replace (bytes_eqb marker marker) with true
      by (symmetry; now apply bytes_eqb_eq).
    rewrite Hd, Hi. reflexivity. }
  assert (Hstep : exec (Resume StdoutPipe) s
    = set_stdout_pipe_task
        (Some (mkPump (mkReader rest eof)
                      (if match returncode (poll p) with
                          | Some _ => true
                          | None => false
                          end || negb (client_connected s)
                       then PumpDone else Reading AtReadline)))
        (set_process (Some (poll p)) s)).
  { unfold exec. rewrite Ht. unfold _stdout_pipe. cbn [at_pc reader].
    rewrite Hread. unfold relay, subprocess_exited. rewrite Hp.
    unfold client_connected at 1. cbn [client_state set_process].
    fold (client_connected s).
    destruct (match returncode (poll p) with Some _ => true | None => false end
              || negb (client_connected s)); reflexivity. }
  split; [exact Hstep|]. rewrite Hstep. reflexivity.
Qed.

Lemma empty_prompt_ends_pump_witness :
  let s := run [ChildExits 0;
                Feed Stdout (marker ++ bytes_of "0" ++ newline
                             :: bytes_of "bye" ++ [newline])]
               (started "app" CONNECTED 7) in
  _stdout_pipe_task (exec (Resume StdoutPipe) s)
  = Some (mkPump (mkReader (bytes_of "bye" ++ [newline]) false) PumpDone)
  /\ sent (exec (Resume StdoutPipe) s) = sent s.
Proof.
  cbv zeta.
  destruct (@empty_prompt_ends_pump
    (run [ChildExits 0;
          Feed Stdout (marker ++ bytes_of "0" ++ newline
                       :: bytes_of "bye" ++ [newline])]
         (started "app" CONNECTED 7))
    (mkPopen (_open_child_process (__init__ "app" CONNECTED)) 7 None
             (Some 0%Z) false)
    (bytes_of "0") (bytes_of "bye" ++ [newline]) false (text "0" ++ [10%N]))
    as [Hstep Hsent]; try reflexivity.
  - unfold no_newline. cbn. intuition discriminate.
  - vm_compute. discriminate.
  - split; [|exact Hsent]. rewrite Hstep. reflexivity.
Defined.

Lemma decode_marker (tail : bytes) : decode (marker ++ tail) = None.
Proof. reflexivity. Qed.

(** X13.  Standard error has no prompt framing.  A marker line on standard
    error is not a prompt and is not relayed at all: it is not UTF-8, so the
    error pump prints a [UnicodeDecodeError], sends nothing, and reads on
    with what follows the line. *)
Theorem stderr_marker_is_dropped (s : session) (field rest : bytes)
  (eof : bool) :
  _stderr_pipe_task s
  = Some (mkPump (mkReader (marker ++ field ++ newline :: rest) eof)
                 (Reading AtReadline)) ->
  no_newline field -> (size (marker ++ field) <= _limit)%N ->
  exec (Resume StderrPipe) s
  = set_stderr_pipe_task
      (Some (mkPump (mkReader rest eof) (Reading AtReadline)))
      (print UnicodeDecodeError s).
Proof.
  intros Ht Hn Hl. unfold exec. rewrite Ht. unfold _stderr_pipe.
  cbn [at_pc reader].
  change (marker ++ field ++ newline :: rest)
    with ((marker ++ field) ++ newline :: rest).
  rewrite readline_line by (auto using marker_line_no_newline).
  rewrite <- app_assoc, decode_marker. reflexivity.
Qed.

Lemma stderr_marker_is_dropped_witness :
  let s := run [Feed Stderr (frame (bytes_of "Name? "))]
               (started "app" CONNECTED 7) in
  printed (exec (Resume StderrPipe) s) = [UnicodeDecodeError]
  /\ sent (run [Resume StderrPipe; Resume StderrPipe; Resume StderrPipe] s)
     = [].
Proof.
  cbv zeta. split; [|reflexivity].
  rewrite (@stderr_marker_is_dropped
    (run [Feed Stderr (frame (bytes_of "Name? "))] (started "app" CONNECTED 7))
    (bytes_of "6") (bytes_of "Name? ") false).
  - reflexivity.
  - reflexivity.
  - unfold no_newline. cbn. intuition discriminate.
  - vm_compute. discriminate.
Defined.

(** ** Bytes that arrive in pieces *)

Lemma slice_to_all (n : Z) (b : bytes) :
  (Z.of_nat (List.length b) <= n)%Z -> slice_to n b = b.
Proof.
  revert n. induction b as [|c b IH]; intros n Hn; cbn [slice_to].
  - reflexivity.
  - cbn [List.length] in Hn. destruct (Z.leb_spec n 0); [lia|].
    rewrite IH; [reflexivity|lia].
Qed.

Lemma slice_from_all (n : Z) (b : bytes) :
  (Z.of_nat (List.length b) <= n)%Z -> slice_from n b = [].
Proof.
  revert n. induction b as [|c b IH]; intros n Hn; cbn [slice_from].
  - reflexivity.
  - cbn [List.length] in Hn. destruct (Z.leb_spec n 0); [lia|].
    apply IH. lia.
Qed.

(** X14.  The payload of a prompt is not awaited in full.  After a marker
    line announcing [n] bytes, with fewer than [n] bytes (but some) in the
    reader, the decoder returns at once what is there, flagged as a prompt,
    and empties the reader: [read(n)] is a read of at most [n] bytes. *)
Theorem read_stdout_short_payload (field avail : bytes) (eof : bool)
  (digits : str) (n : Z) :
  no_newline field -> (size (marker ++ field) <= _limit)%N ->
  decode (field ++ [newline]) = Some digits -> int digits = Some n ->
  avail <> [] -> (Z.of_nat (List.length avail) <= n)%Z ->
  _read_stdout AtReadline (mkReader (marker ++ field ++ newline :: avail) eof)
  = (match decode avail with
     | Some t => Returned (t, true)
     | None => Raised UnicodeDecodeError
     end, mkReader [] eof).
Proof.
  intros Hn Hl Hd Hi Ha Hlen. unfold _read_stdout.
  change (marker ++ field ++ newline :: avail)
    with ((marker ++ field) ++ newline :: avail).
  rewrite readline_line by (auto using marker_line_no_newline).
  rewrite <- app_assoc.
  change (firstn 4 (marker ++ field ++ [newline])) with marker.
  change (skipn 4 (marker ++ field ++ [newline])) with (field ++ [newline]).
  replace (bytes_eqb marker marker) with true
    by (symmetry; now apply bytes_eqb_eq).
  rewrite Hd, Hi. unfold _read_stdout_payload, read. cbn [_buffer _eof].
  assert (Hpos : (0 < n)%Z) by (destruct avail; cbn in *; [congruence|lia]).
  destruct (Z.eqb_spec n 0); [lia|]. destruct (Z.ltb_spec n 0); [lia|].
  destruct avail as [|c avail]; [congruence|].
  rewrite slice_to_all, slice_from_all by assumption. reflexivity.
Qed.

Lemma read_stdout_short_payload_witness :
  _read_stdout AtReadline
    (mkReader (marker ++ bytes_of "19" ++ newline :: bytes_of "What is") false)
  = (Returned (text "What is", true), mkReader [] false).
Proof.
  apply (@read_stdout_short_payload (bytes_of "19") (bytes_of "What is") false
           (text "19" ++ [10%N]) 19%Z); try reflexivity; try discriminate.
  unfold no_newline. cbn. intuition discriminate.
Defined.

Lemma readline_waits (buf : bytes) :
  no_newline buf -> (size buf <= _limit)%N ->
  readline (mkReader buf false) = (Pending, mkReader buf false).
Proof.
  intros Hn Hl. unfold readline. cbn [_buffer _eof].
  rewrite (find_newline_none Hn).
  destruct (N.ltb_spec _limit (size buf)); [lia|reflexivity].
Qed.

(** X15.  A line is relayed whole however its bytes arrive.  While a pump
    awaits a line and its reader holds no newline (within the limit), a
    resumption changes nothing; so feeding a pump the bytes in two pieces
    with a resumption in between leaves the session as feeding them in
    one. *)
Theorem line_pieces (fd : pipe) (s : session) (buf a b : bytes) :
  pump_of fd s = Some (mkPump (mkReader buf false) (Reading AtReadline)) ->
  no_newline (buf ++ a) -> (size (buf ++ a) <= _limit)%N ->
  run [Feed fd a; Resume (task_of fd); Feed fd b] s
  = run [Feed fd (a ++ b)] s.
Proof.
  intros Ht Hn Hl. cbn [run fold_left].
  assert (Hwait : exec (Resume (task_of fd)) (exec (Feed fd a) s)
                  = exec (Feed fd a) s).
  { destruct s, fd; cbn in Ht; subst; cbn [task_of exec];
      cbn [set_stdout_pipe_task set_stderr_pipe_task _stdout_pipe_task
           _stderr_pipe_task option_map];
      unfold on_reader, feed_data; cbn [reader at_pc _buffer _eof];
      unfold _stdout_pipe, _stderr_pipe, _read_stdout; cbn [at_pc reader];
      rewrite (readline_waits Hn Hl); reflexivity. }
  rewrite Hwait.
  destruct s, fd; cbn in Ht; subst; cbn [exec];
    cbn [set_stdout_pipe_task set_stderr_pipe_task _stdout_pipe_task
         _stderr_pipe_task option_map];
    unfold on_reader, feed_data; cbn [reader at_pc _buffer _eof];
    now rewrite <- app_assoc.
Qed.

Lemma line_pieces_witness :
  sent (run [Feed Stdout (bytes_of "Hel"); Resume StdoutPipe;
             Feed Stdout (bytes_of "lo" ++ [newline]);
             Resume StdoutPipe; Resume StdoutPipe]
            (started "app" CONNECTED 7))
  = [STDOUT 7 (text "Hello" ++ [10%N]) false].
Proof.
  change (run [Feed Stdout (bytes_of "Hel"); Resume StdoutPipe;
               Feed Stdout (bytes_of "lo" ++ [newline]);
               Resume StdoutPipe; Resume StdoutPipe]
              (started "app" CONNECTED 7))
    with (run [Resume StdoutPipe; Resume StdoutPipe]
              (run [Feed Stdout (bytes_of "Hel"); Resume (task_of Stdout);
                    Feed Stdout (bytes_of "lo" ++ [newline])]
                   (started "app" CONNECTED 7))).
  rewrite (@line_pieces Stdout (started "app" CONNECTED 7) []
             (bytes_of "Hel") (bytes_of "lo" ++ [newline])).
  - reflexivity.
  - reflexivity.
  - unfold no_newline. cbn. intuition discriminate.
  - vm_compute. discriminate.
Defined.
